(** * Backup & Restore engine (BackupService): shallow embedding

    The service of [backend/src/modules/backup/backup.service.ts] is embedded
    as functions over an explicit [World]: the process environment, the file
    system, the [backupMetadata] table behind Prisma, the in-memory
    [activeBackups] map and the log of commands handed to [execAsync].
    An [async] method becomes a function [World -> promise A * World]; the
    values the method draws from the outside (clock, random bytes, the
    outcome of [pg_dump]/[pg_restore], the id the database gives a new row)
    are explicit arguments.  A call runs to its end in one step; a backup
    of another call that is still in flight shows as an entry of
    [activeBackups].  Directories are not modelled: [fs.ensureDir] has no
    counterpart, and logging is left out.

    Next to the service stand the callers that pass keys to it: the routes
    of its controller and the script [backend/scripts/backup-restore.ts]. *)

From stdpp Require Import gmap strings list fin_maps sorting.
From Stdlib Require Import ZArith Lia.
From Stdlib Require Import Init.Byte Ascii.

Local Open Scope string_scope.
Local Open Scope Z_scope.

(** ** Data *)

Abbreviation bytes := (list Byte.byte).

(** [Date] values are milliseconds since the epoch. *)
Abbreviation Date := Z.

Inductive BackupType := manual | scheduled | automatic.
Inductive BackupStatus := pending | running | completed | failed.

#[export] Instance BackupType_eq_dec : EqDecision BackupType.
Proof. solve_decision. Defined.
#[export] Instance BackupStatus_eq_dec : EqDecision BackupStatus.
Proof. solve_decision. Defined.

(** The in-memory object built by the create methods ([BackupMetadata]). *)
Record BackupMetadata := {
  id : string;
  timestamp : Date;
  type : BackupType;
  status : BackupStatus;
  size : Z;
  checksum : string;
  encrypted : bool;
  duration : Z;
  error : option string;
  path : string;
}.

(** A row of the [backupMetadata] table.  The table has its own primary key
    [row_id] next to the unique [row_backupId]; [saveBackupMetadata] never
    supplies [id] on create, so the database fills it in. *)
Record Row := {
  row_id : string;
  row_backupId : string;
  row_timestamp : Date;
  row_type : BackupType;
  row_status : BackupStatus;
  row_size : Z;
  row_checksum : string;
  row_encrypted : bool;
  row_duration : Z;
  row_error : option string;
  row_path : string;
  row_databaseVersion : option string;
  row_schemaVersion : option string;
  row_recordCount : option Z;
  row_compressionRatio : option Z;
  row_startedAt : option Date;
  row_completedAt : option Date;
  row_restoredAt : option Date;
  row_restoredBy : option string;
  row_createdBy : option string;
  row_branchId : option string;
}.

(** [BackupMetadataResponse], the shape returned by [getBackupList]. *)
Record BackupMetadataResponse := {
  r_id : string;
  r_backupId : string;
  r_timestamp : Date;
  r_type : BackupType;
  r_status : BackupStatus;
  r_size : Z;
  r_checksum : string;
  r_encrypted : bool;
  r_duration : Z;
  r_error : option string;
  r_path : string;
  r_databaseVersion : option string;
  r_schemaVersion : option string;
  r_recordCount : option Z;
  r_compressionRatio : option Z;
  r_startedAt : option Date;
  r_completedAt : option Date;
  r_restoredAt : option Date;
  r_restoredBy : option string;
  r_createdBy : option string;
  r_branchId : option string;
}.

Record RestoreOptions := {
  backupId : string;
  targetDatabase : option string;
  dropExisting : option bool;
  verifyOnly : option bool;
}.

(** One call of [execAsync(command, { env })]. *)
Record ExecCall := {
  command : string;
  PGPASSWORD : string;
}.

Record World := {
  env : gmap string string;
  cwd : string;
  files : gmap string bytes;
  table : list Row;
  activeBackups : gmap string BackupMetadata;
  execLog : list ExecCall;
}.

Definition setEnv (e : gmap string string) (w : World) : World :=
  {| env := e; cwd := cwd w; files := files w; table := table w;
     activeBackups := activeBackups w; execLog := execLog w |}.
Definition setFiles (f : gmap string bytes) (w : World) : World :=
  {| env := env w; cwd := cwd w; files := f; table := table w;
     activeBackups := activeBackups w; execLog := execLog w |}.
Definition setTable (t : list Row) (w : World) : World :=
  {| env := env w; cwd := cwd w; files := files w; table := t;
     activeBackups := activeBackups w; execLog := execLog w |}.
Definition setActiveBackups (a : gmap string BackupMetadata) (w : World) : World :=
  {| env := env w; cwd := cwd w; files := files w; table := table w;
     activeBackups := a; execLog := execLog w |}.
Definition logExec (c : ExecCall) (w : World) : World :=
  {| env := env w; cwd := cwd w; files := files w; table := table w;
     activeBackups := activeBackups w; execLog := execLog w ++ [c] |}.

(** ** Exceptions and promises *)

Inductive exn :=
  | NotFoundException (msg : string)
  | BadRequestException (msg : string)
  | Error (msg : string).

Definition message (e : exn) : string :=
  match e with
  | NotFoundException m | BadRequestException m | Error m => m
  end.

(** The state of the promise an [async] method returns.  [NeverSettles] is
    the promise that is neither resolved nor rejected: the failure happened
    on a stream nobody listens to. *)
Inductive promise (A : Type) :=
  | Fulfilled (a : A)
  | Rejected (e : exn)
  | NeverSettles.
Arguments Fulfilled {A} a.
Arguments Rejected {A} e.
Arguments NeverSettles {A}.

Definition settled {A} (p : promise A) : Prop :=
  match p with NeverSettles => False | _ => True end.

Definition M (A : Type) : Type := World → promise A * World.

Definition ret {A} (a : A) : M A := λ w, (Fulfilled a, w).
Definition throw {A} (e : exn) : M A := λ w, (Rejected e, w).
Definition bind {A B} (m : M A) (f : A → M B) : M B := λ w,
  match m w with
  | (Fulfilled a, w') => f a w'
  | (Rejected e, w') => (Rejected e, w')
  | (NeverSettles, w') => (NeverSettles, w')
  end.

(** [try m catch (e) h]. *)
Definition try_catch {A} (m : M A) (h : exn → M A) : M A := λ w,
  match m w with
  | (Rejected e, w') => h e w'
  | r => r
  end.

(** [try m finally fin]: [fin] runs once [m] has settled, and the outcome of
    [m] stands unless [fin] itself does not complete. *)
Definition try_finally {A} (m : M A) (fin : M unit) : M A := λ w,
  match m w with
  | (NeverSettles, w') => (NeverSettles, w')
  | (r, w') =>
      match fin w' with
      | (Fulfilled _, w'') => (r, w'')
      | (Rejected e, w'') => (Rejected e, w'')
      | (NeverSettles, w'') => (NeverSettles, w'')
      end
  end.

Definition get {A} (f : World → A) : M A := λ w, (Fulfilled (f w), w).
Definition modify (f : World → World) : M unit := λ w, (Fulfilled tt, f w).

#[export] Instance M_ret : MRet M := @ret.
#[export] Instance M_bind : MBind M := λ A B f m, bind m f.

(** JavaScript's [a || b] on a possibly undefined string: the empty string
    is falsy too. *)
Definition or_else (a : option string) (b : option string) : option string :=
  match a with
  | Some s => if decide (s = "") then b else Some s
  | None => b
  end.
Definition or_default (a : option string) (d : string) : string :=
  default d (or_else a (Some d)).

(** ** Platform *)

Record URL := {
  hostname : string;
  port : string;
  username : string;
  password : string;
  pathname : string;
}.

(** What [decipher.update]/[decipher.final] delivered: the whole plaintext,
    or the bytes pushed before [final()] threw. *)
Inductive decipherResult :=
  | Deciphered (plain : bytes)
  | BadDecrypt (written : bytes).

(** The library functions the service calls.  They are not code of the
    repository and enter the model as an interface. *)
Class Platform := {
  (** [crypto.scryptSync(password, salt, keylen)] *)
  scryptSync : string → string → nat → bytes;
  (** [crypto.createCipheriv('aes-256-cbc', key, iv)] fed with the data *)
  aes_256_cbc_encrypt : bytes → bytes → bytes → bytes;
  (** [crypto.createDecipheriv('aes-256-cbc', key, iv)] fed with the data *)
  aes_256_cbc_decrypt : bytes → bytes → bytes → decipherResult;
  (** [crypto.createHash('sha256').update(b).digest('hex')] *)
  sha256_hex : bytes → string;
  (** [new URL(s)]; [None] when the constructor throws *)
  parseURL : string → option URL;
  (** [parseInt(s)]; [None] is [NaN] *)
  parseInt : string → option Z;
  (** [d.setDate(d.getDate() - n)] *)
  minusDays : Date → Z → Date;
}.

(** Facts about the library functions used below: CBC with PKCS#7 padding
    yields whole 16-byte blocks, one more than the plaintext fills; a
    decipher that was fed nothing fails in [final()]. *)
Class PlatformLaws (P : Platform) : Prop := {
  aes_256_cbc_encrypt_length : ∀ k iv x,
    length (aes_256_cbc_encrypt k iv x) = (16 * (length x / 16 + 1))%nat;
  aes_256_cbc_decrypt_nil : ∀ k iv, aes_256_cbc_decrypt k iv [] = BadDecrypt [];
}.

(** ** Strings and paths *)

(** The double-quote character of the shell commands. *)
Definition dquote : string := String (Ascii.ascii_of_nat 34) EmptyString.

Fixpoint string_drop (n : nat) (s : string) : string :=
  match n, s with
  | O, _ => s
  | S n', String _ s' => string_drop n' s'
  | S _, EmptyString => EmptyString
  end.

(** [s.replace(pat, rep)] with a string pattern: the first occurrence only. *)
Fixpoint string_replace (pat rep s : string) : string :=
  if String.prefix pat s then rep +:+ string_drop (String.length pat) s
  else match s with
       | EmptyString => EmptyString
       | String c s' => String c (string_replace pat rep s')
       end.

(** [s.replace(/[:.]/g, '-')] *)
Fixpoint dashes (s : string) : string :=
  match s with
  | EmptyString => EmptyString
  | String c s' =>
      String (if decide (c = ":"%char ∨ c = "."%char) then "-"%char else c)
             (dashes s')
  end.

(** [path.join(a, b)] for the normalised segments the service passes. *)
Definition path_join (a b : string) : string := a +:+ "/" +:+ b.

(** [generateBackupId], from [new Date().toISOString()] and the hex form of
    [crypto.randomBytes(4)]. *)
Definition generateBackupId (isoNow randomHex : string) : string :=
  "backup_" +:+ dashes isoNow +:+ "_" +:+ randomHex.

(** ** File system *)

Definition pathExists (p : string) : M bool :=
  get (λ w, bool_decide (is_Some (files w !! p))).
Definition remove (p : string) : M unit :=
  modify (λ w, setFiles (delete p (files w)) w).
Definition writeFile (p : string) (b : bytes) : M unit :=
  modify (λ w, setFiles (<[p := b]> (files w)) w).
Definition readFile (p : string) : M bytes := λ w,
  match files w !! p with
  | Some b => (Fulfilled b, w)
  | None => (Rejected (Error ("ENOENT: no such file or directory, open " +:+ p)), w)
  end.
(** [fs.stat(p)], of which only [.size] is used. *)
Definition stat (p : string) : M Z := λ w,
  match files w !! p with
  | Some b => (Fulfilled (Z.of_nat (length b)), w)
  | None => (Rejected (Error ("ENOENT: no such file or directory, stat " +:+ p)), w)
  end.

(** [if (await fs.pathExists(p)) { await fs.remove(p) }] *)
Definition removeIfExists (p : string) : M unit :=
  e ← pathExists p; if (e : bool) then remove p else mret tt.

(** Default [highWaterMark] of [fs.createReadStream]: 64 KiB per chunk. *)
Definition highWaterMark : nat := Z.to_nat 65536.

(** The ['data'] events of a read stream over a file with this content. *)
Fixpoint readChunks (fuel : nat) (data : bytes) : list bytes :=
  match fuel, data with
  | _, [] => []
  | O, _ => []
  | S fuel', _ => take highWaterMark data :: readChunks fuel' (drop highWaterMark data)
  end.
Definition createReadStream (data : bytes) : list bytes :=
  readChunks (length data) data.

(** ** Encryption codec *)

Section Codec.
Context {P : Platform}.

Definition encryptionKey (w : World) : bytes :=
  scryptSync (or_default (env w !! "BACKUP_ENCRYPTION_KEY") "default-key") "salt" 32.

(** [encryptFile]: the IV is written first, then the input is piped
    through the cipher into the output; ['finish'] resolves with the
    output path.  [iv] is the value of [crypto.randomBytes(16)].  An
    ['error'] of the input stream has no listener. *)
Definition encryptFile (iv : bytes) (inputPath outputPath : string) : M string := λ w,
  let key := encryptionKey w in
  match files w !! inputPath with
  | Some data =>
      (Fulfilled outputPath,
       setFiles (<[outputPath := (iv ++ aes_256_cbc_encrypt key iv data)%list]> (files w)) w)
  | None => (NeverSettles, setFiles (<[outputPath := iv]> (files w)) w)
  end.

(** [decryptFile]: the ['data'] handler takes the IV from the first chunk
    and only then pipes the input into the decipher.  A listener added
    while an event is being emitted is not called for that event, so the
    decipher receives the chunks after the first one.  The promise is
    resolved by ['finish'] of the output and rejected by an ['error'] of
    the input or the output; an exception in the handler or an ['error']
    of the decipher reaches neither. *)
Definition decryptFile (inputPath outputPath : string) : M string := λ w,
  let key := encryptionKey w in
  match files w !! inputPath with
  | None =>
      (Rejected (Error ("ENOENT: no such file or directory, open " +:+ inputPath)),
       setFiles (<[outputPath := []]> (files w)) w)
  | Some data =>
      match createReadStream data with
      | [] => (NeverSettles, setFiles (<[outputPath := []]> (files w)) w)
      | chunk :: rest =>
          let iv := take 16 chunk in
          if decide (length iv = 16%nat) then
            match aes_256_cbc_decrypt key iv (concat rest) with
            | Deciphered plain =>
                (Fulfilled outputPath, setFiles (<[outputPath := plain]> (files w)) w)
            | BadDecrypt written =>
                (NeverSettles, setFiles (<[outputPath := written]> (files w)) w)
            end
          else (NeverSettles, setFiles (<[outputPath := []]> (files w)) w)
      end
  end.
End Codec.

(** ** Metadata store (the Prisma delegate [prisma.backupMetadata]) *)

(** [findUnique({ where: { backupId } })] *)
Definition findUnique (k : string) (t : list Row) : option Row :=
  find (λ r, bool_decide (row_backupId r = k)) t.

(** The [update] branch of the upsert.  A field given as [undefined] is left
    as it is: [error] when the metadata has none, [completedAt] unless the
    status is [completed], [startedAt] always (no create method sets it). *)
Definition updateRow (m : BackupMetadata) (savedAt : Date) (r : Row) : Row :=
  {| row_id := row_id r; row_backupId := row_backupId r;
     row_timestamp := row_timestamp r; row_type := row_type r;
     row_status := status m; row_size := size m; row_checksum := checksum m;
     row_encrypted := row_encrypted r; row_duration := duration m;
     row_error := match error m with Some e => Some e | None => row_error r end;
     row_path := path m;
     row_databaseVersion := row_databaseVersion r;
     row_schemaVersion := row_schemaVersion r;
     row_recordCount := row_recordCount r;
     row_compressionRatio := row_compressionRatio r;
     row_startedAt := row_startedAt r;
     row_completedAt :=
       if decide (status m = completed) then Some savedAt else row_completedAt r;
     row_restoredAt := row_restoredAt r; row_restoredBy := row_restoredBy r;
     row_createdBy := row_createdBy r; row_branchId := row_branchId r |}.

(** The [create] branch: [backupId] is the metadata's [id]; the row's own
    [id] is not given and comes from the database ([newId]). *)
Definition createRow (m : BackupMetadata) (savedAt : Date) (newId : string) : Row :=
  {| row_id := newId; row_backupId := id m;
     row_timestamp := timestamp m; row_type := type m;
     row_status := status m; row_size := size m; row_checksum := checksum m;
     row_encrypted := encrypted m; row_duration := duration m;
     row_error := error m; row_path := path m;
     row_databaseVersion := None; row_schemaVersion := None;
     row_recordCount := None; row_compressionRatio := None;
     row_startedAt := None;
     row_completedAt := if decide (status m = completed) then Some savedAt else None;
     row_restoredAt := None; row_restoredBy := None;
     row_createdBy := None; row_branchId := None |}.

(** [upsert({ where: { backupId: metadata.id }, update, create })] *)
Definition upsert (m : BackupMetadata) (savedAt : Date) (newId : string)
    (t : list Row) : list Row :=
  match findUnique (id m) t with
  | Some _ =>
      map (λ r, if decide (row_backupId r = id m) then updateRow m savedAt r else r) t
  | None => (t ++ [createRow m savedAt newId])%list
  end.

(** [delete({ where: { id } })]: [None] when no row has this [id] (Prisma
    throws "Record to delete does not exist"). *)
Definition deleteWhereId (k : string) (t : list Row) : option (list Row) :=
  if existsb (λ r, bool_decide (row_id r = k)) t
  then Some (filter (λ r, row_id r ≠ k) t)
  else None.

(** [orderBy: { timestamp: 'desc' }] *)
Definition newer_first (a b : Row) : Prop := row_timestamp b ≤ row_timestamp a.
#[export] Instance newer_first_dec a b : Decision (newer_first a b).
Proof. unfold newer_first. apply _. Defined.

(** [findMany({ orderBy: { timestamp: 'desc' }, take: 100 })].  Among rows
    of equal timestamp the database fixes no order; here the sort decides. *)
Definition findManyNewest (t : list Row) : list Row :=
  take 100 (merge_sort newer_first t).

(** [findMany({ where: { timestamp: { lt }, status: 'completed' } })] *)
Definition findManyOld (cutoffDate : Date) (t : list Row) : list Row :=
  filter (λ r, row_timestamp r < cutoffDate ∧ row_status r = completed) t.

(** ** The service *)

Inductive DumpResult :=
  | DumpOk (out : bytes)
  | DumpFailed (msg : string) (partialOut : option bytes).

Inductive ExecResult :=
  | ExecOk
  | ExecFailed (msg : string).

(** What one create call draws from outside the process. *)
Record CreateInputs := {
  i_isoNow : string;       (** [new Date().toISOString()] in [generateBackupId] *)
  i_randomHex : string;    (** [crypto.randomBytes(4).toString('hex')] *)
  i_timestamp : Date;      (** [new Date()] for [metadata.timestamp] *)
  i_startTime : Z;         (** [Date.now()] when [performBackup] starts *)
  i_endTime : Z;           (** [Date.now()] after the encryption *)
  i_pg_dump : DumpResult;  (** what the [pg_dump] process does *)
  i_iv : bytes;            (** [crypto.randomBytes(16)] *)
  i_savedAt : Date;        (** [new Date()] in [saveBackupMetadata] *)
  i_newRowId : string;     (** the [id] the database gives a created row *)
  i_cleanupNow : Date;     (** [new Date()] in [cleanupOldBackups] *)
}.

Definition toResponse (backup : Row) : BackupMetadataResponse :=
  {| r_id := row_id backup; r_backupId := row_backupId backup;
     r_timestamp := row_timestamp backup; r_type := row_type backup;
     r_status := row_status backup; r_size := row_size backup;
     r_checksum := row_checksum backup; r_encrypted := row_encrypted backup;
     r_duration := row_duration backup;
     r_error := or_else (row_error backup) None;
     r_path := row_path backup;
     r_databaseVersion := or_else (row_databaseVersion backup) None;
     r_schemaVersion := or_else (row_schemaVersion backup) None;
     r_recordCount :=
       match row_recordCount backup with
       | Some n => if decide (n = 0) then None else Some n
       | None => None
       end;
     r_compressionRatio :=
       match row_compressionRatio backup with
       | Some n => if decide (n = 0) then None else Some n
       | None => None
       end;
     r_startedAt := row_startedAt backup; r_completedAt := row_completedAt backup;
     r_restoredAt := row_restoredAt backup;
     r_restoredBy := or_else (row_restoredBy backup) None;
     r_createdBy := or_else (row_createdBy backup) None;
     r_branchId := or_else (row_branchId backup) None |}.

Definition getBackupList : M (list BackupMetadataResponse) :=
  get (λ w, map toResponse (findManyNewest (table w))).

Definition saveBackupMetadata (savedAt : Date) (newId : string)
    (metadata : BackupMetadata) : M unit :=
  modify (λ w, setTable (upsert metadata savedAt newId (table w)) w).

Definition getBackupMetadata (backupId : string) : M (option BackupMetadata) :=
  get (λ w,
    match findUnique backupId (table w) with
    | None => None
    | Some backup =>
        Some {| id := row_backupId backup; timestamp := row_timestamp backup;
                type := row_type backup; status := row_status backup;
                size := row_size backup; checksum := row_checksum backup;
                encrypted := row_encrypted backup; duration := row_duration backup;
                error := or_else (row_error backup) None;
                path := row_path backup |}
    end).

Definition deleteBackup (backupId : string) : M unit :=
  try_catch
    (backup ← getBackupMetadata backupId;
     match backup with
     | None => throw (NotFoundException ("النسخة الاحتياطية غير موجودة: " +:+ backupId))
     | Some backup =>
         removeIfExists (path backup);;
         t ← get table;
         match deleteWhereId backupId t with
         | Some t' => modify (setTable t')
         | None => throw (Error "Record to delete does not exist.")
         end
     end)
    (λ error, throw error).

Fixpoint for_each {A} (l : list A) (body : A → M unit) : M unit :=
  match l with
  | [] => mret tt
  | x :: l' => body x;; for_each l' body
  end.

(** The command line of [performBackup], built from the fields of the
    parsed [DATABASE_URL]. *)
Definition dumpCommand (url : URL) (backupPath : string) : string :=
  let dbName := string_drop 1 (pathname url) in
  "pg_dump --host=" +:+ hostname url +:+ " --port=" +:+ port url
  +:+ " --username=" +:+ username url +:+ " --dbname=" +:+ dbName
  +:+ " --no-password --format=custom --compress=9 --file="
  +:+ dquote +:+ backupPath +:+ dquote.

(** The command line of [performRestore]. *)
Definition restoreCommand (url : URL) (dropExisting : bool) (tempPath : string)
    : string :=
  let dbName := string_drop 1 (pathname url) in
  let restoreCommand :=
    "pg_restore --host=" +:+ hostname url +:+ " --port=" +:+ port url
    +:+ " --username=" +:+ username url +:+ " --dbname=" +:+ dbName
    +:+ " --no-password" in
  let restoreCommand :=
    if dropExisting then restoreCommand +:+ " --clean --if-exists"
    else restoreCommand in
  restoreCommand +:+ " " +:+ dquote +:+ tempPath +:+ dquote.

Section Service.
Context {P : Platform}.

(** [cleanupOldBackups]; [now] is [new Date()].  A retention setting that
    does not parse makes the cutoff an invalid date, which the query
    refuses; every exception ends in the method's own [catch]. *)
Definition cleanupOldBackups (now : Date) : M unit :=
  try_catch
    (e ← get env;
     match parseInt (or_default (e !! "BACKUP_RETENTION_DAYS") "30") with
     | None => throw (Error "Invalid Date")
     | Some retentionDays =>
         let cutoffDate := minusDays now retentionDays in
         oldBackups ← get (λ w, findManyOld cutoffDate (table w));
         for_each oldBackups (λ backup, deleteBackup (row_id backup))
     end)
    (λ _, mret tt).

(** [execAsync(dumpCommand, { env })]: the call is logged; a successful
    [pg_dump] has written its output to [--file], a failed one rejects
    and may leave a partial file. *)
Definition exec_pg_dump (r : DumpResult) (dumpCommand dbPassword backupPath : string)
    : M unit :=
  modify (logExec {| command := dumpCommand; PGPASSWORD := dbPassword |});;
  match r with
  | DumpOk out => writeFile backupPath out
  | DumpFailed msg partialOut =>
      match partialOut with
      | Some b => writeFile backupPath b
      | None => mret tt
      end;;
      throw (Error msg)
  end.

(** [execAsync(restoreCommand, { env })] *)
Definition exec_pg_restore (r : ExecResult) (restoreCommand dbPassword : string)
    : M unit :=
  modify (logExec {| command := restoreCommand; PGPASSWORD := dbPassword |});;
  match r with
  | ExecOk => mret tt
  | ExecFailed msg => throw (Error msg)
  end.

(** The fields of [performBackup]'s result. *)
Record BackupResult := {
  res_size : Z;
  res_checksum : string;
  res_duration : Z;
  res_path : string;
}.

Definition performBackup (i : CreateInputs) (backupId : string) (ty : BackupType)
    : M BackupResult :=
  dir ← get cwd;
  let backupDir := path_join dir "backups" in
  let backupPath := path_join backupDir (backupId +:+ ".sql") in
  let encryptedPath := path_join backupDir (backupId +:+ ".enc") in
  try_catch
    (e ← get env;
     match or_else (e !! "DATABASE_URL") None with
     | None => throw (Error "DATABASE_URL غير محدد")
     | Some databaseUrl =>
         match parseURL databaseUrl with
         | None => throw (Error "Invalid URL")
         | Some url =>
             exec_pg_dump (i_pg_dump i) (dumpCommand url backupPath) (password url)
                          backupPath;;
             fileSize ← stat backupPath;
             fileBuffer ← readFile backupPath;
             let checksum := sha256_hex fileBuffer in
             encryptFile (i_iv i) backupPath (string_replace ".enc" "" encryptedPath);;
             remove backupPath;;
             mret {| res_size := fileSize; res_checksum := checksum;
                     res_duration := i_endTime i - i_startTime i;
                     res_path := encryptedPath |}
         end
     end)
    (λ error, removeIfExists backupPath;; throw error).

(** The metadata object as the create methods first build it. *)
Definition newMetadata (backupId : string) (i : CreateInputs) (ty : BackupType)
    : BackupMetadata :=
  {| id := backupId; timestamp := i_timestamp i; type := ty; status := pending;
     size := 0; checksum := ""; encrypted := true; duration := 0;
     error := None; path := "" |}.

(** [metadata.status = 'completed'] and the four assignments after it. *)
Definition markCompleted (metadata : BackupMetadata) (result : BackupResult)
    : BackupMetadata :=
  {| id := id metadata; timestamp := timestamp metadata; type := type metadata;
     status := completed; size := res_size result;
     checksum := res_checksum result; encrypted := encrypted metadata;
     duration := res_duration result; error := error metadata;
     path := res_path result |}.

(** [metadata.status = 'failed'; metadata.error = error.message] *)
Definition markFailed (metadata : BackupMetadata) (e : exn) : BackupMetadata :=
  {| id := id metadata; timestamp := timestamp metadata; type := type metadata;
     status := failed; size := size metadata; checksum := checksum metadata;
     encrypted := encrypted metadata; duration := duration metadata;
     error := Some (message e); path := path metadata |}.

Definition activate (backupId : string) (metadata : BackupMetadata) : M unit :=
  modify (λ w, setActiveBackups (<[backupId := metadata]> (activeBackups w)) w).
Definition deactivate (backupId : string) : M unit :=
  modify (λ w, setActiveBackups (delete backupId (activeBackups w)) w).

Definition createManualBackup (i : CreateInputs) : M BackupMetadata :=
  let backupId := generateBackupId (i_isoNow i) (i_randomHex i) in
  let metadata := newMetadata backupId i manual in
  activate backupId metadata;;
  try_finally
    (try_catch
       (result ← performBackup i backupId manual;
        let metadata := markCompleted metadata result in
        saveBackupMetadata (i_savedAt i) (i_newRowId i) metadata;;
        mret metadata)
       (λ error,
        saveBackupMetadata (i_savedAt i) (i_newRowId i) (markFailed metadata error);;
        throw error))
    (deactivate backupId).

Definition createScheduledBackup (i : CreateInputs) : M unit :=
  let backupId := generateBackupId (i_isoNow i) (i_randomHex i) in
  let metadata := newMetadata backupId i scheduled in
  activate backupId metadata;;
  try_finally
    (try_catch
       (result ← performBackup i backupId scheduled;
        let metadata := markCompleted metadata result in
        saveBackupMetadata (i_savedAt i) (i_newRowId i) metadata;;
        cleanupOldBackups (i_cleanupNow i))
       (λ error,
        saveBackupMetadata (i_savedAt i) (i_newRowId i) (markFailed metadata error)))
    (deactivate backupId).

Definition createAutomaticBackup (reason : string) (i : CreateInputs)
    : M BackupMetadata :=
  let backupId := generateBackupId (i_isoNow i) (i_randomHex i) in
  let metadata := newMetadata backupId i automatic in
  activate backupId metadata;;
  try_finally
    (try_catch
       (result ← performBackup i backupId automatic;
        let metadata := markCompleted metadata result in
        saveBackupMetadata (i_savedAt i) (i_newRowId i) metadata;;
        mret metadata)
       (λ error,
        saveBackupMetadata (i_savedAt i) (i_newRowId i) (markFailed metadata error);;
        throw error))
    (deactivate backupId).

Definition performRestore (r : ExecResult) (backup : BackupMetadata)
    (targetDatabase : option string) (dropExisting : bool) : M unit :=
  dir ← get cwd;
  let tempPath := path_join (path_join dir "temp") ("restore_" +:+ id backup +:+ ".sql") in
  try_finally
    (decryptFile (path backup) tempPath;;
     e ← get env;
     match or_else targetDatabase (or_else (e !! "DATABASE_URL") None) with
     | None => throw (Error "DATABASE_URL غير محدد")
     | Some databaseUrl =>
         match parseURL databaseUrl with
         | None => throw (Error "Invalid URL")
         | Some url =>
             exec_pg_restore r (restoreCommand url dropExisting tempPath) (password url)
         end
     end)
    (removeIfExists tempPath).

Definition verifyBackup (backup : BackupMetadata) : M unit :=
  dir ← get cwd;
  let tempPath := path_join (path_join dir "temp") ("verify_" +:+ id backup) in
  try_finally
    (decryptedPath ← decryptFile (path backup) tempPath;
     fileBuffer ← readFile decryptedPath;
     let calculatedChecksum := sha256_hex fileBuffer in
     if decide (calculatedChecksum ≠ checksum backup)
     then throw (Error "Checksum غير متطابق - الملف تالف")
     else mret tt)
    (removeIfExists tempPath).

(** [restoreBackup]; [r] is what the [pg_restore] process does if it is
    started. *)
Definition restoreBackup (r : ExecResult) (options : RestoreOptions) : M unit :=
  let dropExisting := default false (dropExisting options) in
  let verifyOnly := default false (verifyOnly options) in
  backup ← getBackupMetadata (backupId options);
  match backup with
  | None =>
      throw (NotFoundException ("النسخة الاحتياطية غير موجودة: " +:+ backupId options))
  | Some backup =>
      if decide (status backup ≠ completed)
      then throw (BadRequestException
                    ("النسخة الاحتياطية غير جاهزة للاستعادة: " +:+ backupId options))
      else
        try_catch
          (if verifyOnly then verifyBackup backup
           else performRestore r backup (targetDatabase options) dropExisting)
          (λ error, throw error)
  end.
End Service.

(** ** Statistics, self-test and the callers of the service *)

(** The object [getBackupStats] returns; [stats_activeBackups] is its field
    [activeBackups]. *)
Record BackupStats := {
  totalBackups : nat;
  successfulBackups : nat;
  failedBackups : nat;
  lastBackup : option Date;
  totalSize : Z;
  stats_activeBackups : nat;
}.

(** [count({ where: { status } })] *)
Definition countWhere (st : BackupStatus) (t : list Row) : nat :=
  length (filter (λ r, row_status r = st) t).

(** [aggregate({ _sum: { size: true } })]: [null] on an empty table. *)
Definition sumSize (t : list Row) : option Z :=
  match t with
  | [] => None
  | _ => Some (foldr (λ r acc, row_size r + acc) 0 t)
  end.

(** [aggregate({ _max: { timestamp: true } })]: [null] on an empty table. *)
Definition maxTimestamp (t : list Row) : option Date :=
  foldr (λ r acc, Some match acc with
                       | Some m => Z.max (row_timestamp r) m
                       | None => row_timestamp r
                       end) None t.

(** [getBackupStats]; [stats._sum.size || 0] turns [null] and zero alike
    into [0]. *)
Definition getBackupStats : M BackupStats :=
  get (λ w,
    {| totalBackups := length (table w);
       successfulBackups := countWhere completed (table w);
       failedBackups := countWhere failed (table w);
       lastBackup := maxTimestamp (table w);
       totalSize := default 0 (sumSize (table w));
       stats_activeBackups := base.size (activeBackups w) |}).

(** The bytes of a string. *)
Definition utf8 (s : string) : bytes :=
  map byte_of_ascii (String.list_ascii_of_string s).

(** The object [testBackup] returns. *)
Record TestResult := {
  success : bool;
  test_message : string;
  details : option exn;
}.

(** [JSON.stringify({ test: true, timestamp })] for an ISO timestamp. *)
Definition testDataJson (timestamp : string) : string :=
  "{" +:+ dquote +:+ "test" +:+ dquote +:+ ":true," +:+ dquote +:+ "timestamp"
  +:+ dquote +:+ ":" +:+ dquote +:+ timestamp +:+ dquote +:+ "}".

Section SelfTest.
Context {P : Platform}.

(** [JSON.stringify(JSON.parse(content))]: the message of the syntax error,
    or the re-serialised value. *)
Variable reserialize : bytes → string + string.

(** [testBackup].  [nowMs] is [Date.now()] in decimal, [isoNow] is
    [new Date().toISOString()], [iv] is what [encryptFile] draws.
    [fs.writeJson] writes the serialised value and a newline; the paths
    handed to [encryptFile] and [decryptFile] are relative ones. *)
Definition testBackup (nowMs isoNow : string) (iv : bytes) : M TestResult :=
  try_catch
    (let testBackupId := "test_" +:+ nowMs in
     dir ← get cwd;
     let tempPath := path_join (path_join dir "temp") (testBackupId +:+ ".json") in
     writeFile tempPath (utf8 (testDataJson isoNow +:+ String "010"%char ""));;
     encryptedPath ← encryptFile iv tempPath (testBackupId +:+ "_encrypted");
     decryptedPath ← decryptFile encryptedPath (testBackupId +:+ "_decrypted.json");
     content ← readFile decryptedPath;
     match reserialize content with
     | inl msg => throw (Error msg)
     | inr decryptedData =>
         let isValid := bool_decide (testDataJson isoNow = decryptedData) in
         remove tempPath;;
         remove encryptedPath;;
         remove decryptedPath;;
         if isValid
         then mret {| success := true;
                      test_message := "تم اختبار النسخ الاحتياطي بنجاح";
                      details := None |}
         else mret {| success := false;
                      test_message := "فشل في التحقق من تشفير/فك تشفير البيانات";
                      details := None |}
     end)
    (λ error,
     mret {| success := false;
             test_message := "فشل اختبار النسخ الاحتياطي: " +:+ message error;
             details := Some error |}).
End SelfTest.

(** *** The controller *)

Record RestoreBackupDto := {
  dto_backupId : string;
  dto_targetDatabase : option string;
  dto_dropExisting : option bool;
  dto_verifyOnly : option bool;
}.

Module BackupController.
Section Controller.
Context {P : Platform}.

Definition restoreBackup (r : ExecResult) (dto : RestoreBackupDto) : M unit :=
  let options :=
    {| backupId := dto_backupId dto;
       targetDatabase := dto_targetDatabase dto;
       dropExisting := dto_dropExisting dto;
       verifyOnly := dto_verifyOnly dto |} in
  restoreBackup r options.

(** [GET :backupId]: the entry of the list whose [id] is the parameter, or
    [null]. *)
Definition getBackup (backupId : string) : M (option BackupMetadataResponse) :=
  backups ← getBackupList;
  mret (find (λ backup, bool_decide (r_id backup = backupId)) backups).

Definition deleteBackup (backupId : string) : M unit :=
  deleteBackup backupId.
End Controller.
End BackupController.

(** *** The restore script ([scripts/backup-restore.ts]) *)

(** How a run of the script ends. *)
Inductive ScriptEnd :=
  | ProcessExit (code : Z)   (** [process.exit(code)] *)
  | AppClosed                (** the restore went through and [app.close()] ran *)
  | NothingStarted           (** the function is done, or waits for input,
                                 and no restore was started *)
  | RestorePending.          (** [restoreBackup] has not settled *)

Section Script.
Context {P : Platform}.

(** The inner [performRestore] of the script. *)
Definition script_performRestore (r : ExecResult) (backupId : string)
    (targetDatabase : option string) (dropExisting verifyOnly : bool)
    : World → ScriptEnd * World := λ w,
  match restoreBackup r {| backupId := backupId; targetDatabase := targetDatabase;
                           dropExisting := Some dropExisting;
                           verifyOnly := Some verifyOnly |} w with
  | (Fulfilled _, w') => (AppClosed, w')
  | (Rejected _, w') => (ProcessExit 1, w')
  | (NeverSettles, w') => (RestorePending, w')
  end.

(** [runBackupRestore].  [argv] is [process.argv] and [answer] is the line
    read from standard input, trimmed and in lower case, if one arrives. *)
Definition runBackupRestore (argv : list string) (answer : option string)
    (r : ExecResult) : World → ScriptEnd * World := λ w,
  let backupId := or_else (argv !! 2%nat) None in
  let targetDatabase := argv !! 3%nat in
  let dropExisting := bool_decide ("--drop-existing" ∈ argv) in
  let verifyOnly := bool_decide ("--verify-only" ∈ argv) in
  match backupId with
  | None => (ProcessExit 1, w)
  | Some backupId =>
      match getBackupList w with
      | (Fulfilled backups, w1) =>
          match find (λ b, bool_decide (r_id b = backupId)) backups with
          | None => (ProcessExit 1, w1)
          | Some backup =>
              if decide (r_status backup ≠ completed) then (ProcessExit 1, w1)
              else if verifyOnly then (NothingStarted, w1)
              else if decide (env w1 !! "NODE_ENV" = Some "development") then
                match answer with
                | None => (NothingStarted, w1)
                | Some input =>
                    if decide (input = "yes" ∨ input = "y")
                    then script_performRestore r backupId targetDatabase
                                               dropExisting verifyOnly w1
                    else (ProcessExit 0, w1)
                end
              else script_performRestore r backupId targetDatabase
                                         dropExisting verifyOnly w1
          end
      | (Rejected _, w1) => (ProcessExit 1, w1)
      | (NeverSettles, w1) => (NothingStarted, w1)
      end
  end.
End Script.


(** ** A platform to run the service on

    Stand-ins for the library functions, used where a statement is evaluated
    on a concrete world: the key is the password cut or zero-padded to the
    key length, the cipher is the identity under PKCS#7 padding, the digest
    is 64 copies of one hex digit, [new URL] knows one connection string.
    They satisfy [PlatformLaws]. *)
Module Sim.
Definition string_bytes (s : string) : bytes :=
  map byte_of_ascii (String.list_ascii_of_string s).

Definition scrypt (password salt : string) (keylen : nat) : bytes :=
  take keylen (string_bytes password ++ replicate keylen x00)%list.

Definition pad_byte (n : nat) : Byte.byte :=
  default x00 (Byte.of_nat n).

Definition encrypt (key iv data : bytes) : bytes :=
  let n := (16 - length data mod 16)%nat in
  (data ++ replicate n (pad_byte n))%list.

Definition decrypt (key iv data : bytes) : decipherResult :=
  match last data with
  | None => BadDecrypt []
  | Some b =>
      let n := Byte.to_nat b in
      if decide (length data mod 16 = 0 ∧ 1 ≤ n ≤ 16)%nat
      then Deciphered (take (length data - n) data)
      else BadDecrypt (take (length data - 16) data)
  end.

Definition hex_digit (n : nat) : ascii :=
  default "0"%char (String.list_ascii_of_string "0123456789abcdef" !! n).

Definition digest (data : bytes) : string :=
  String.string_of_list_ascii (replicate 64 (hex_digit (length data mod 16))).

Definition url (s : string) : option URL :=
  if decide (s = "postgresql://pos:secret@db:5432/pos")
  then Some {| hostname := "db"; port := "5432"; username := "pos";
               password := "secret"; pathname := "/pos" |}
  else None.

Definition digit (c : ascii) : option Z :=
  let n := nat_of_ascii c in
  if decide (48 ≤ n ≤ 57)%nat then Some (Z.of_nat n - 48) else None.

Fixpoint digits (acc : Z) (s : string) : Z :=
  match s with
  | EmptyString => acc
  | String c s' =>
      match digit c with
      | Some d => digits (10 * acc + d) s'
      | None => acc
      end
  end.

Definition int (s : string) : option Z :=
  match s with
  | EmptyString => None
  | String c _ => match digit c with Some _ => Some (digits 0 s) | None => None end
  end.

#[export] Instance platform : Platform := {|
  scryptSync := scrypt;
  aes_256_cbc_encrypt := encrypt;
  aes_256_cbc_decrypt := decrypt;
  sha256_hex := digest;
  parseURL := url;
  parseInt := int;
  minusDays := λ d n, d - n * 86400000;
|}.
End Sim.

(** * Vocabulary of the statements *)

(** [m] leaves the part [f] of the world as it found it. *)
Definition preserves {X A} (f : World → X) (m : M A) : Prop :=
  ∀ w, f (snd (m w)) = f w.

(** Unfolds the monadic glue, then the field accesses it exposes. *)
Tactic Notation "unfold_M" :=
  cbv [mbind M_bind mret M_ret bind ret throw get modify try_catch try_finally].
Tactic Notation "unfold_M" "in" hyp(H) :=
  cbv [mbind M_bind mret M_ret bind ret throw get modify try_catch try_finally] in H.
Ltac simpl_world :=
  cbn [env cwd files table activeBackups execLog fst snd
       setEnv setFiles setTable setActiveBackups logExec].

(** Everything in the world but the file at [p]. *)
Definition outside (p : string) (w : World) :=
  (env w, cwd w, table w, activeBackups w, execLog w, delete p (files w)).

Definition verifyPath (dir backupId : string) : string :=
  path_join (path_join dir "temp") ("verify_" +:+ backupId).

Definition restorePath (dir backupId : string) : string :=
  path_join (path_join dir "temp") ("restore_" +:+ backupId +:+ ".sql").

(** A computation that neither reads nor writes [activeBackups]. *)
Definition ignores_active {A} (m : M A) : Prop :=
  ∀ w a, m (setActiveBackups a w) = (fst (m w), setActiveBackups a (snd (m w))).

(** What a call does apart from [activeBackups]. *)
Definition effects (w : World) :=
  (env w, cwd w, files w, table w, execLog w).

(** [op] runs in [w] as it runs with no backup active, and leaves the
    entry of the backup [other] in place. *)
Definition not_exclusive {A} (op : M A) (w : World) (other : string)
    (running : BackupMetadata) : Prop :=
  fst (op w) = fst (op (setActiveBackups ∅ w)) ∧
  effects (snd (op w)) = effects (snd (op (setActiveBackups ∅ w))) ∧
  activeBackups (snd (op w)) !! other = Some running.

Definition sqlPath (dir backupId : string) : string :=
  path_join (path_join dir "backups") (backupId +:+ ".sql").
Definition encPath (dir backupId : string) : string :=
  path_join (path_join dir "backups") (backupId +:+ ".enc").
(** The output path [performBackup] hands to [encryptFile]. *)
Definition writtenPath (dir backupId : string) : string :=
  string_replace ".enc" "" (encPath dir backupId).

(** The record a successful run of type [ty] builds. *)
Definition completedMetadata {P : Platform} (i : CreateInputs) (ty : BackupType) (w : World)
    (out : bytes) : BackupMetadata :=
  let backupId := generateBackupId (i_isoNow i) (i_randomHex i) in
  markCompleted (newMetadata backupId i ty)
    {| res_size := Z.of_nat (length out); res_checksum := sha256_hex out;
       res_duration := i_endTime i - i_startTime i;
       res_path := encPath (cwd w) backupId |}.

(** The world after a successful create call of type [ty]. *)
Definition completedWorld {P : Platform} (i : CreateInputs) (ty : BackupType) (w : World)
    (url : URL) (out : bytes) : World :=
  let backupId := generateBackupId (i_isoNow i) (i_randomHex i) in
  {| env := env w; cwd := cwd w;
     files :=
       delete (sqlPath (cwd w) backupId)
         (<[writtenPath (cwd w) backupId :=
              (i_iv i ++ aes_256_cbc_encrypt (encryptionKey w) (i_iv i) out)%list]>
            (<[sqlPath (cwd w) backupId := out]> (files w)));
     table := upsert (completedMetadata i ty w out) (i_savedAt i) (i_newRowId i) (table w);
     activeBackups := delete backupId (activeBackups w);
     execLog := (execLog w ++
                 [{| command := dumpCommand url (sqlPath (cwd w) backupId);
                     PGPASSWORD := password url |}])%list |}.

(** ** Sample worlds

    Concrete inputs on which the statements below are evaluated. *)

Definition sample_id : string := "backup_2024-11-12T12-34-56-789Z_a1b2c3d4".

(** The bytes of a (short) dump. *)
Definition sample_dump : bytes := [x50; x47; x44; x4d; x50].

Definition sample_iv : bytes := replicate 16 x07.

Definition sample_inputs : CreateInputs :=
  {| i_isoNow := "2024-11-12T12:34:56.789Z"; i_randomHex := "a1b2c3d4";
     i_timestamp := 1731414896789;
     i_startTime := 1731414896800; i_endTime := 1731414897000;
     i_pg_dump := DumpOk sample_dump; i_iv := sample_iv;
     i_savedAt := 1731414897001; i_newRowId := "cm3e1k7";
     i_cleanupNow := 1731414897002 |}.

Definition sample_url : URL :=
  {| hostname := "db"; port := "5432"; username := "pos";
     password := "secret"; pathname := "/pos" |}.

(** A scheduled backup that is still in flight. *)
Definition running_backup : BackupMetadata :=
  {| id := "backup_2024-11-12T02-00-00-000Z_0badcafe"; timestamp := 1731376800000;
     type := scheduled; status := pending; size := 0; checksum := "";
     encrypted := true; duration := 0; error := None; path := "" |}.

Definition idle_world : World :=
  {| env := {[ "DATABASE_URL" := "postgresql://pos:secret@db:5432/pos" ]};
     cwd := "/app"; files := ∅; table := []; activeBackups := ∅; execLog := [] |}.

Definition busy_world : World :=
  setActiveBackups {[ "backup_2024-11-12T02-00-00-000Z_0badcafe" := running_backup ]}
                   idle_world.

(** The record and the encrypted file a successful manual backup of
    [sample_dump] produces on the stand-in platform. *)
Definition sample_completed : BackupMetadata :=
  {| id := sample_id; timestamp := 1731414896789; type := manual;
     status := completed; size := 5;
     checksum := "5555555555555555555555555555555555555555555555555555555555555555";
     encrypted := true; duration := 200; error := None;
     path := "/app/backups/backup_2024-11-12T12-34-56-789Z_a1b2c3d4.enc" |}.

Definition sample_artifact : bytes :=
  (sample_iv ++ sample_dump ++ replicate 11 x0b)%list.

(** A completed record as [saveBackupMetadata] creates it: the primary key
    is the database's, the [backupId] is the service's. *)
Definition orphan_row : Row :=
  {| row_id := "cm3e1k7"; row_backupId := sample_id;
     row_timestamp := 1731414896789; row_type := manual; row_status := completed;
     row_size := 5;
     row_checksum := "5555555555555555555555555555555555555555555555555555555555555555";
     row_encrypted := true; row_duration := 200; row_error := None;
     row_path := "/app/backups/backup_2024-11-12T12-34-56-789Z_a1b2c3d4.enc";
     row_databaseVersion := None; row_schemaVersion := None;
     row_recordCount := None; row_compressionRatio := None;
     row_startedAt := None; row_completedAt := Some 1731414897001;
     row_restoredAt := None; row_restoredBy := None;
     row_createdBy := None; row_branchId := None |}.

Definition orphan_world : World :=
  {| env := ∅; cwd := "/app";
     files := {[ "/app/backups/backup_2024-11-12T12-34-56-789Z_a1b2c3d4.enc" := sample_artifact ]};
     table := [orphan_row]; activeBackups := ∅; execLog := [] |}.

Definition retention_world : World :=
  setEnv {[ "BACKUP_RETENTION_DAYS" := "30" ]} orphan_world.

(** An artifact of two chunks: the IV and 65520 bytes fill the first, a
    data block and a block of padding make the second. *)
Definition large_artifact : bytes :=
  (sample_iv ++ replicate (Z.to_nat 65520) x00
   ++ replicate 16 x41 ++ replicate 16 x10)%list.

Definition restore_world : World :=
  {| env := {[ "DATABASE_URL" := "postgresql://pos:secret@db:5432/pos" ]};
     cwd := "/app";
     files := {[ "/app/backups/backup_2024-11-12T12-34-56-789Z_a1b2c3d4.enc" := large_artifact ]};
     table := [orphan_row]; activeBackups := ∅; execLog := [] |}.

Definition destructive_options : RestoreOptions :=
  {| backupId := sample_id; targetDatabase := None;
     dropExisting := Some true; verifyOnly := Some false |}.

Definition verify_options : RestoreOptions :=
  {| backupId := sample_id; targetDatabase := None;
     dropExisting := None; verifyOnly := Some true |}.

(** No [BACKUP_ENCRYPTION_KEY] in the environment. *)
Definition keyless_world : World :=
  {| env := ∅; cwd := "/app";
     files := {[ "/app/temp/test.json" := [x7b; x7d] ]};
     table := []; activeBackups := ∅; execLog := [] |}.

(** What a successful create call records for the backup whose plain dump
    was [out]: size and checksum of the plain dump, next to the encrypted
    file the pipeline wrote. *)
Definition persists_plain_dump {P : Platform} (res : promise BackupMetadata * World)
    (w : World) (i : CreateInputs) (out : bytes) : Prop :=
  let backupId := generateBackupId (i_isoNow i) (i_randomHex i) in
  let artifact := (i_iv i ++ aes_256_cbc_encrypt (encryptionKey w) (i_iv i) out)%list in
  ∃ metadata row,
    fst res = Fulfilled metadata ∧
    status metadata = completed ∧
    size metadata = Z.of_nat (length out) ∧
    checksum metadata = sha256_hex out ∧
    findUnique backupId (table (snd res)) = Some row ∧
    row_status row = completed ∧
    row_size row = Z.of_nat (length out) ∧
    row_checksum row = sha256_hex out ∧
    files (snd res) !! writtenPath (cwd w) backupId = Some artifact ∧
    size metadata < Z.of_nat (length artifact).

(** The same for [createScheduledBackup], which returns nothing and runs
    the retention after the save: [w1] is the world in which the record
    has reached [completed]; what follows is [cleanupOldBackups], and every
    record of this backup that it leaves carries the same values. *)
Definition scheduled_persists_plain_dump {P : Platform} (res : promise unit * World)
    (w : World) (i : CreateInputs) (out : bytes) : Prop :=
  let backupId := generateBackupId (i_isoNow i) (i_randomHex i) in
  let artifact := (i_iv i ++ aes_256_cbc_encrypt (encryptionKey w) (i_iv i) out)%list in
  ∃ w1 row,
    fst res = Fulfilled tt ∧
    snd res = snd (cleanupOldBackups (i_cleanupNow i) w1) ∧
    findUnique backupId (table w1) = Some row ∧
    row_status row = completed ∧
    row_size row = Z.of_nat (length out) ∧
    row_checksum row = sha256_hex out ∧
    files w1 !! writtenPath (cwd w) backupId = Some artifact ∧
    row_size row < Z.of_nat (length artifact) ∧
    ∀ row', row' ∈ table (snd res) → row_backupId row' = backupId →
            row_status row' = completed ∧
            row_size row' = Z.of_nat (length out) ∧
            row_checksum row' = sha256_hex out.

(** An environment with a key, and an empty file to encrypt. *)
Definition codec_world : World :=
  {| env := {[ "BACKUP_ENCRYPTION_KEY" := "0123456789abcdef0123456789abcdef" ]};
     cwd := "/app"; files := {[ "/app/temp/empty.json" := [] ]};
     table := []; activeBackups := ∅; execLog := [] |}.

(** ** Further vocabulary *)

Ltac simpl_world_in H :=
  cbn [env cwd files table activeBackups execLog fst snd
       setEnv setFiles setTable setActiveBackups logExec] in H.

(** The environment and the files other than [p]. *)
Definition beside (p : string) (w : World) := (env w, delete p (files w)).

(** A create call that failed with [msg]: the caller gets the error, the
    record is saved as [failed] with the message, the plain dump is not on
    disk and the entry in [activeBackups] is gone. *)
Definition failed_run (res : promise BackupMetadata * World) (w : World)
    (i : CreateInputs) (msg : string) : Prop :=
  let backupId := generateBackupId (i_isoNow i) (i_randomHex i) in
  ∃ row,
    fst res = Rejected (Error msg) ∧
    findUnique backupId (table (snd res)) = Some row ∧
    row_status row = failed ∧
    row_error row = Some msg ∧
    files (snd res) = delete (sqlPath (cwd w) backupId) (files w) ∧
    activeBackups (snd res) = delete backupId (activeBackups w).

(** Whether [pat] occurs in [s]. *)
Fixpoint occurs (pat s : string) : bool :=
  String.prefix pat s ||
  match s with
  | EmptyString => false
  | String _ s' => occurs pat s'
  end.

(** ** More sample inputs *)

(** A run in which [pg_dump] fails after writing part of its output. *)
Definition failing_inputs : CreateInputs :=
  {| i_isoNow := "2024-11-12T12:34:56.789Z"; i_randomHex := "a1b2c3d4";
     i_timestamp := 1731414896789;
     i_startTime := 1731414896800; i_endTime := 1731414897000;
     i_pg_dump := DumpFailed "pg_dump: error: connection to server failed" (Some [x50]);
     i_iv := sample_iv;
     i_savedAt := 1731414897001; i_newRowId := "cm3e1k7";
     i_cleanupNow := 1731414897002 |}.

(** A record whose primary key is its [backupId]. *)
Definition keyed_row : Row := createRow sample_completed 1731414897001 sample_id.

Definition keyed_world : World :=
  {| env := ∅; cwd := "/app";
     files := {[ "/app/backups/backup_2024-11-12T12-34-56-789Z_a1b2c3d4.enc" := sample_artifact ]};
     table := [keyed_row]; activeBackups := ∅; execLog := [] |}.

(** Command lines of the restore script; the record is named by its
    primary key. *)
Definition verify_argv : list string :=
  ["node"; "scripts/backup-restore.ts"; "cm3e1k7"; "--verify-only"].
Definition restore_argv : list string :=
  ["node"; "scripts/backup-restore.ts"; "cm3e1k7"].

(** A world in which the script's key works: the record's primary key is
    its [backupId], and the artifact has a second chunk. *)
Definition keyed_restore_world : World :=
  {| env := {[ "DATABASE_URL" := "postgresql://pos:secret@db:5432/pos" ]};
     cwd := "/app";
     files := {[ "/app/backups/backup_2024-11-12T12-34-56-789Z_a1b2c3d4.enc" := large_artifact ]};
     table := [keyed_row]; activeBackups := ∅; execLog := [] |}.

(** Command lines that name this record; in the second one a flag stands
    where the target database is read. *)
Definition keyed_argv : list string :=
  ["node"; "scripts/backup-restore.ts"; sample_id].
Definition drop_argv : list string :=
  ["node"; "scripts/backup-restore.ts"; sample_id; "--drop-existing"].

Definition sample_dto : RestoreBackupDto :=
  {| dto_backupId := "cm3e1k7"; dto_targetDatabase := None;
     dto_dropExisting := None; dto_verifyOnly := Some true |}.


(** * Properties *)

(** ** The stand-in platform obeys the laws *)

Lemma sim_encrypt_length (k iv x : bytes) :
  length (Sim.encrypt k iv x) = (16 * (length x / 16 + 1))%nat.
Proof.
  unfold Sim.encrypt. rewrite length_app, length_replicate.
  pose proof (Nat.div_mod_eq (length x) 16).
  pose proof (Nat.mod_upper_bound (length x) 16).
  lia.
Qed.

Lemma sim_laws : PlatformLaws Sim.platform.
Proof.
  split.
  - apply sim_encrypt_length.
  - reflexivity.
Qed.

(** ** Frames: what a computation leaves alone *)

Section Frames.
Context {X : Type} (f : World → X).

Lemma preserves_ret {A} (a : A) : preserves f (mret a).
Proof. by intros w. Qed.

Lemma preserves_throw {A} (e : exn) : preserves f (throw (A:=A) e).
Proof. by intros w. Qed.

Lemma preserves_get {A} (g : World → A) : preserves f (get g).
Proof. by intros w. Qed.

Lemma preserves_modify (g : World → World) :
  (∀ w, f (g w) = f w) → preserves f (modify g).
Proof. intros H w. apply H. Qed.

Lemma preserves_bind {A B} (m : M A) (k : A → M B) :
  preserves f m → (∀ a, preserves f (k a)) → preserves f (m ≫= k).
Proof.
  intros Hm Hk w. unfold mbind, M_bind, bind.
  specialize (Hm w). destruct (m w) as [[a|e|] w1]; simpl in *; try done.
  by rewrite Hk.
Qed.

Lemma preserves_try_catch {A} (m : M A) (h : exn → M A) :
  preserves f m → (∀ e, preserves f (h e)) → preserves f (try_catch m h).
Proof.
  intros Hm Hh w. unfold try_catch.
  specialize (Hm w). destruct (m w) as [[a|e|] w1]; simpl in *; try done.
  by rewrite Hh.
Qed.

Lemma preserves_try_finally {A} (m : M A) (fin : M unit) :
  preserves f m → preserves f fin → preserves f (try_finally m fin).
Proof.
  intros Hm Hfin w. unfold try_finally.
  specialize (Hm w). destruct (m w) as [[a|e|] w1]; simpl in *; try done;
    specialize (Hfin w1); destruct (fin w1) as [[[]|e'|] w2]; simpl in *; congruence.
Qed.

Lemma preserves_for_each {A} (l : list A) (body : A → M unit) :
  (∀ a, preserves f (body a)) → preserves f (for_each l body).
Proof.
  intros Hb. induction l as [|a l IH]; simpl.
  - apply preserves_ret.
  - apply preserves_bind; auto.
Qed.
End Frames.

(** Splits a computation along its monadic structure and its case
    distinctions; what is left are the primitive steps. *)
Ltac frame_step :=
  first
    [ apply preserves_bind | apply preserves_try_catch | apply preserves_try_finally
    | apply preserves_for_each
    | apply preserves_ret | apply preserves_throw | apply preserves_get
    | apply preserves_modify; intros; reflexivity
    | match goal with
      | |- preserves _ (match ?x with _ => _ end) => destruct x
      | |- ∀ _, _ => intros
      end ].
Ltac frame := repeat frame_step.

(** ** The list operation *)

#[export] Instance newer_first_trans : Transitive newer_first.
Proof. unfold newer_first. intros a b c ??. lia. Qed.
#[export] Instance newer_first_total : Total newer_first.
Proof. unfold newer_first. intros a b. lia. Qed.

Lemma findManyNewest_length (t : list Row) :
  length (findManyNewest t) = (100 `min` length t)%nat.
Proof.
  unfold findManyNewest. rewrite length_take.
  by rewrite (Permutation_length (merge_sort_Permutation newer_first t)).
Qed.

Lemma findManyNewest_split (t : list Row) :
  ∃ omitted, t ≡ₚ findManyNewest t ++ omitted ∧
    ∀ a o, a ∈ findManyNewest t → o ∈ omitted → row_timestamp o ≤ row_timestamp a.
Proof.
  exists (drop 100 (merge_sort newer_first t)). unfold findManyNewest. split.
  - rewrite take_drop. symmetry. apply merge_sort_Permutation.
  - intros a o Ha Ho.
    pose proof (StronglySorted_merge_sort newer_first t) as Hs.
    rewrite <- (take_drop 100 (merge_sort newer_first t)) in Hs.
    apply (StronglySorted_app_1_elem_of newer_first _ _ a o Hs Ha Ho).
Qed.

Lemma findManyNewest_sorted (t : list Row) :
  StronglySorted newer_first (findManyNewest t).
Proof.
  pose proof (StronglySorted_merge_sort newer_first t) as Hs.
  rewrite <- (take_drop 100 (merge_sort newer_first t)) in Hs.
  by apply StronglySorted_app_1_l in Hs.
Qed.

Lemma StronglySorted_map_toResponse (l : list Row) :
  StronglySorted newer_first l →
  StronglySorted (λ a b, r_timestamp b ≤ r_timestamp a) (map toResponse l).
Proof.
  induction 1 as [|a l Hl IH Ha]; simpl; constructor; [done|].
  rewrite Forall_forall in Ha. apply Forall_forall. intros x Hx.
  apply list_elem_of_In, in_map_iff in Hx as (r & <- & Hr).
  apply (Ha r). by apply list_elem_of_In.
Qed.

(** C10. [getBackupList] returns the responses of [min 100 n] rows of the
    [n]-row table, ordered by timestamp descending; every row left out is no
    newer than any row returned, and the call changes nothing. *)
Theorem C10_getBackupList_newest_100 (w : World) :
  ∃ kept omitted,
    getBackupList w = (Fulfilled (map toResponse kept), w) ∧
    (length (map toResponse kept) ≤ 100)%nat ∧
    length (map toResponse kept) = (100 `min` length (table w))%nat ∧
    StronglySorted (λ a b, r_timestamp b ≤ r_timestamp a) (map toResponse kept) ∧
    table w ≡ₚ kept ++ omitted ∧
    (∀ a o, a ∈ kept → o ∈ omitted → row_timestamp o ≤ row_timestamp a).
Proof.
  destruct (findManyNewest_split (table w)) as (omitted & Hperm & Hnewer).
  exists (findManyNewest (table w)), omitted.
  rewrite length_map, findManyNewest_length.
  split_and!; try done; try lia.
  apply StronglySorted_map_toResponse, findManyNewest_sorted.
Qed.

(** ** Worlds *)

Lemma setFiles_id (w : World) : setFiles (files w) w = w.
Proof. by destruct w. Qed.

Lemma setFiles_delete_absent (w : World) (p : string) :
  files w !! p = None → setFiles (delete p (files w)) w = w.
Proof. intros H. rewrite delete_id by done. apply setFiles_id. Qed.

(** [removeIfExists] is [delete] on the file map. *)
Lemma removeIfExists_spec (p : string) (w : World) :
  removeIfExists p w = (Fulfilled tt, setFiles (delete p (files w)) w).
Proof.
  unfold removeIfExists, pathExists, remove. unfold_M.
  case_bool_decide as Hp; [done|].
  rewrite setFiles_delete_absent; [done|].
  by apply eq_None_not_Some.
Qed.

(** ** Deleting *)

Lemma findUnique_Some (k : string) (t : list Row) (r : Row) :
  findUnique k t = Some r → r ∈ t ∧ row_backupId r = k.
Proof.
  unfold findUnique. intros H. apply find_some in H as [Hin Hk].
  split; [by apply list_elem_of_In|]. by apply bool_decide_eq_true in Hk.
Qed.

Lemma deleteWhereId_None (k : string) (t : list Row) :
  (∀ r, r ∈ t → row_id r ≠ k) → deleteWhereId k t = None.
Proof.
  intros H. unfold deleteWhereId.
  destruct (existsb _ t) eqn:E; [|done].
  apply existsb_exists in E as (r & Hin & Hk).
  apply bool_decide_eq_true in Hk. apply list_elem_of_In in Hin.
  by destruct (H r Hin).
Qed.

Lemma deleteBackup_unknown (k : string) (w : World) :
  findUnique k (table w) = None →
  deleteBackup k w =
    (Rejected (NotFoundException ("النسخة الاحتياطية غير موجودة: " +:+ k)), w).
Proof.
  intros H. unfold deleteBackup, getBackupMetadata. unfold_M. by rewrite H.
Qed.

(** C9. When the record found under [backupId] has another primary key
    (no row's [id] is the given [backupId]), [deleteBackup] removes the
    artifact file, fails in the metadata delete and leaves the row behind:
    a metadata row without its file. *)
Theorem C9_deleteBackup_orphans_row (w : World) (k : string) (r : Row) :
  findUnique k (table w) = Some r →
  (∀ r', r' ∈ table w → row_id r' ≠ k) →
  ∃ w',
    deleteBackup k w = (Rejected (Error "Record to delete does not exist."), w') ∧
    findUnique k (table w') = Some r ∧
    files w' = delete (row_path r) (files w) ∧
    files w' !! row_path r = None.
Proof.
  intros Hr Hid. exists (setFiles (delete (row_path r) (files w)) w).
  split_and!; simpl; try done; [|apply lookup_delete_eq].
  unfold deleteBackup, getBackupMetadata. unfold_M. rewrite Hr.
  cbn [path]. rewrite removeIfExists_spec. simpl_world.
  by rewrite deleteWhereId_None.
Qed.


(** ** Retention *)

Section Retention.
Context {P : Platform}.

(** C8. With a retention setting that parses, take the first completed
    row older than the cutoff: when no record carries that row's primary
    key as its [backupId], [cleanupOldBackups] ends in its own [catch] and
    deletes nothing, neither this row nor any other row or file. *)
Theorem C8_cleanup_deletes_nothing (w : World) (now : Date) (days : Z)
    (r : Row) (rest : list Row) :
  parseInt (or_default (env w !! "BACKUP_RETENTION_DAYS") "30") = Some days →
  findManyOld (minusDays now days) (table w) = r :: rest →
  findUnique (row_id r) (table w) = None →
  r ∈ table w ∧ row_status r = completed ∧
  row_timestamp r < minusDays now days ∧
  cleanupOldBackups now w = (Fulfilled tt, w).
Proof.
  intros Hdays Hold Hkey.
  assert (r ∈ findManyOld (minusDays now days) (table w)) as Hr
    by (rewrite Hold; left).
  unfold findManyOld in Hr. apply list_elem_of_filter in Hr as [[Hts Hst] Hin].
  split_and!; try done.
  unfold cleanupOldBackups. unfold_M. rewrite Hdays, Hold.
  cbn [for_each]. unfold_M. by rewrite deleteBackup_unknown.
Qed.
End Retention.


(** ** Encryption codec *)

Lemma highWaterMark_Z : Z.of_nat highWaterMark = 65536.
Proof. unfold highWaterMark. by rewrite Z2Nat.id. Qed.

Lemma readChunks_nil (fuel : nat) : readChunks fuel [] = [].
Proof. by destruct fuel. Qed.

(** A non-empty file of at most 64 KiB arrives as one chunk. *)
Lemma createReadStream_single (data : bytes) :
  data ≠ [] → (length data ≤ highWaterMark)%nat → createReadStream data = [data].
Proof.
  intros Hne Hlen. unfold createReadStream.
  destruct data as [|b data]; [done|].
  cbn [length readChunks].
  rewrite take_ge, drop_ge by done. by rewrite readChunks_nil.
Qed.

Section CodecFacts.
Context {P : Platform}.

Lemma encryptionKey_absent (w : World) :
  env w !! "BACKUP_ENCRYPTION_KEY" = None →
  encryptionKey w = scryptSync "default-key" "salt" 32.
Proof. intros H. unfold encryptionKey. by rewrite H. Qed.

Lemma encryptionKey_setEnv (w : World) (k : string) :
  k ≠ "" →
  encryptionKey (setEnv (<["BACKUP_ENCRYPTION_KEY" := k]> (env w)) w)
    = scryptSync k "salt" 32.
Proof.
  intros Hk. unfold encryptionKey. simpl_world. rewrite lookup_insert_eq.
  unfold or_default, or_else. by rewrite decide_False.
Qed.

(** C3. Without [BACKUP_ENCRYPTION_KEY] neither
    [encryptFile] nor [decryptFile] refuses: the key is derived from the
    built-in ["default-key"], and both calls end as they do when the
    variable is set to that very string, writing the same bytes. *)
Theorem C3_missing_key_falls_back_to_default (w : World) (iv : bytes)
    (inputPath outputPath : string) :
  env w !! "BACKUP_ENCRYPTION_KEY" = None →
  let w' := setEnv (<["BACKUP_ENCRYPTION_KEY" := "default-key"]> (env w)) w in
  encryptionKey w = scryptSync "default-key" "salt" 32 ∧
  fst (encryptFile iv inputPath outputPath w) = fst (encryptFile iv inputPath outputPath w') ∧
  files (snd (encryptFile iv inputPath outputPath w))
    = files (snd (encryptFile iv inputPath outputPath w')) ∧
  fst (decryptFile inputPath outputPath w) = fst (decryptFile inputPath outputPath w') ∧
  files (snd (decryptFile inputPath outputPath w))
    = files (snd (decryptFile inputPath outputPath w')).
Proof.
  intros Hkey w'.
  pose proof (encryptionKey_absent w Hkey) as Hk.
  assert (encryptionKey w' = encryptionKey w) as Hk'.
  { subst w'. by rewrite encryptionKey_setEnv, Hk. }
  split; [done|].
  unfold encryptFile, decryptFile. rewrite Hk'. subst w'. simpl_world.
  split_and!.
  - by destruct (files w !! inputPath).
  - by destruct (files w !! inputPath).
  - destruct (files w !! inputPath) as [data|]; [|done].
    destruct (createReadStream data) as [|chunk rest]; [done|].
    case_decide; [|done]. by destruct (aes_256_cbc_decrypt _ _ _).
  - destruct (files w !! inputPath) as [data|]; [|done].
    destruct (createReadStream data) as [|chunk rest]; [done|].
    case_decide; [|done]. by destruct (aes_256_cbc_decrypt _ _ _).
Qed.

Context {L : PlatformLaws P}.

(** C2. Decrypting what [encryptFile] wrote does not give the input
    back: for every input shorter than 65520 bytes, the empty one
    included, the encrypted file is a single chunk, the decipher is fed
    nothing, and the promise of [decryptFile] never settles; the output
    file stays empty. *)
Theorem C2_decrypt_of_encrypt_never_settles (w : World) (iv x : bytes)
    (plainPath encryptedPath decryptedPath : string) :
  files w !! plainPath = Some x →
  length iv = 16%nat →
  Z.of_nat (length x) < 65520 →
  ∃ w1 w2,
    encryptFile iv plainPath encryptedPath w = (Fulfilled encryptedPath, w1) ∧
    files w1 !! encryptedPath = Some (iv ++ aes_256_cbc_encrypt (encryptionKey w) iv x)%list ∧
    decryptFile encryptedPath decryptedPath w1 = (NeverSettles, w2) ∧
    files w2 !! decryptedPath = Some [].
Proof.
  intros Hx Hiv Hlen.
  eexists _, _. split; [|split].
  - unfold encryptFile. rewrite Hx. reflexivity.
  - simpl_world. apply lookup_insert_eq.
  - unfold decryptFile. simpl_world. rewrite lookup_insert_eq.
    rewrite createReadStream_single.
    + rewrite take_app_length' by done.
      rewrite decide_True by done. cbn [concat].
      rewrite aes_256_cbc_decrypt_nil. split; [reflexivity|].
      simpl_world. apply lookup_insert_eq.
    + destruct iv; [done|]. done.
    + rewrite length_app, aes_256_cbc_encrypt_length, Hiv.
      pose proof highWaterMark_Z.
      pose proof (Nat.div_mod_eq (length x) 16).
      pose proof (Nat.mod_upper_bound (length x) 16).
      lia.
Qed.
End CodecFacts.

(** ** Restore *)

Lemma outside_inv (p : string) (w w' : World) :
  outside p w' = outside p w →
  env w' = env w ∧ cwd w' = cwd w ∧ table w' = table w ∧
  activeBackups w' = activeBackups w ∧ execLog w' = execLog w ∧
  ∀ q, q ≠ p → files w' !! q = files w !! q.
Proof.
  unfold outside. intros [= -> -> -> -> -> Hf]. split_and!; try done.
  intros q Hq. by rewrite <- (lookup_delete_ne (files w') p q), Hf, lookup_delete_ne.
Qed.

Lemma try_finally_removeIfExists {A} (m : M A) (p : string) (w : World) :
  settled (fst (try_finally m (removeIfExists p) w)) →
  files (snd (try_finally m (removeIfExists p) w)) !! p = None.
Proof.
  unfold try_finally.
  destruct (m w) as [[a|e|] w1]; rewrite ?removeIfExists_spec; simpl; try done;
    intros _; apply lookup_delete_eq.
Qed.

Section RestoreFacts.
Context {P : Platform}.

Lemma decryptFile_outside (inputPath outputPath : string) :
  preserves (outside outputPath) (decryptFile inputPath outputPath).
Proof.
  intros w. unfold decryptFile, outside.
  repeat case_match; simpl_world; by rewrite delete_insert_eq.
Qed.

Lemma readFile_preserves {X} (f : World → X) (p : string) :
  preserves f (readFile p).
Proof. intros w. unfold readFile. by case_match. Qed.

Lemma remove_outside (p : string) : preserves (outside p) (remove p).
Proof.
  intros w. unfold outside, remove, modify. simpl_world.
  by rewrite delete_delete_eq.
Qed.

Lemma verifyBackup_outside (backup : BackupMetadata) (w : World) :
  outside (verifyPath (cwd w) (id backup)) (snd (verifyBackup backup w))
    = outside (verifyPath (cwd w) (id backup)) w.
Proof.
  unfold verifyBackup. unfold mbind at 1. unfold M_bind, bind, get.
  fold (verifyPath (cwd w) (id backup)).
  generalize (verifyPath (cwd w) (id backup)). intros p.
  match goal with
  | |- outside _ (snd (?m w)) = _ => cut (preserves (outside p) m); [by intros H|]
  end.
  frame; auto using decryptFile_outside, readFile_preserves, remove_outside.
Qed.

Lemma verifyBackup_scratch_removed (backup : BackupMetadata) (w : World) :
  settled (fst (verifyBackup backup w)) →
  files (snd (verifyBackup backup w)) !! verifyPath (cwd w) (id backup) = None.
Proof. apply try_finally_removeIfExists. Qed.

(** A [restoreBackup] call with [verifyOnly = true], whatever its
    outcome, executes no command, leaves the metadata table, the
    environment and [activeBackups] as they were and touches no file but
    the scratch path [temp/verify_<backupId>]; if the call settles, the
    scratch file is gone, or no file was touched at all. *)
Lemma verifyOnly_frame (r : ExecResult) (options : RestoreOptions)
    (w : World) :
  verifyOnly options = Some true →
  let scratch := verifyPath (cwd w) (backupId options) in
  let res := restoreBackup r options w in
  execLog (snd res) = execLog w ∧
  table (snd res) = table w ∧
  env (snd res) = env w ∧
  activeBackups (snd res) = activeBackups w ∧
  (∀ p, p ≠ scratch → files (snd res) !! p = files w !! p) ∧
  (settled (fst res) →
     files (snd res) = files w ∨ files (snd res) = delete scratch (files w)).
Proof.
  intros Hv scratch res.
  assert (res = restoreBackup r options w) as E by done.
  clearbody res. subst scratch.
  unfold restoreBackup in E. rewrite Hv in E.
  change (default false (Some true)) with true in E.
  unfold mbind, M_bind, bind, getBackupMetadata, get in E.
  destruct (findUnique (backupId options) (table w)) as [row|] eqn:Hrow.
  2:{ subst res. simpl. split_and!; auto. }
  apply findUnique_Some in Hrow as [_ Hid].
  match type of E with context [verifyBackup ?b] => set (backup := b) in E end.
  cbv iota beta in E. case_decide as Hst.
  { subst res. simpl. split_and!; auto. }
  assert (id backup = backupId options) as Hidb by done.
  pose proof (verifyBackup_outside backup w) as Hout.
  pose proof (verifyBackup_scratch_removed backup w) as Hgone.
  rewrite Hidb in Hout, Hgone.
  apply outside_inv in Hout as (He & _ & Ht & Ha & Hl & Hf).
  assert (settled (fst (verifyBackup backup w)) →
          files (snd (verifyBackup backup w))
            = delete (verifyPath (cwd w) (backupId options)) (files w)) as Hdel.
  { intros Hs. apply map_eq. intros q.
    destruct (decide (q = verifyPath (cwd w) (backupId options))) as [->|Hq].
    - by rewrite Hgone, lookup_delete_eq.
    - by rewrite Hf, lookup_delete_ne. }
  unfold try_catch, throw in E.
  destruct (verifyBackup backup w) as [[[]|e|] w']; subst res; simpl in *;
    split_and!; auto.
Qed.

(** [performRestore] writes no metadata, and the one command it can hand
    to [execAsync] is the [pg_restore] of the scratch file. *)
Lemma performRestore_effects (r : ExecResult) (backup : BackupMetadata)
    (targetDatabase : option string) (dropExisting : bool) (w : World) :
  let w' := snd (performRestore r backup targetDatabase dropExisting w) in
  table w' = table w ∧ activeBackups w' = activeBackups w ∧
  (execLog w' = execLog w ∨
   ∃ url,
     execLog w' = (execLog w ++
       [{| command := restoreCommand url dropExisting (restorePath (cwd w) (id backup));
           PGPASSWORD := password url |}])%list).
Proof.
  intros w'. subst w'.
  remember (performRestore r backup targetDatabase dropExisting w) as res eqn:E.
  unfold performRestore in E.
  unfold mbind at 1 in E. unfold M_bind, bind, get in E.
  fold (restorePath (cwd w) (id backup)) in E.
  revert E. generalize (restorePath (cwd w) (id backup)). intros p E.
  unfold try_finally in E. unfold mbind at 1 in E. unfold M_bind, bind in E.
  pose proof (decryptFile_outside (path backup) p w) as Hd.
  apply outside_inv in Hd as (He & _ & Ht & Ha & Hl & _).
  destruct (decryptFile (path backup) p w) as [[q|e|] w1]; simpl in *.
  2,3: rewrite ?removeIfExists_spec in E; subst res; simpl; auto.
  unfold mbind, M_bind, bind, get, throw in E.
  destruct (or_else targetDatabase _) as [databaseUrl|].
  2: rewrite removeIfExists_spec in E; subst res; simpl; auto.
  destruct (parseURL databaseUrl) as [url|].
  2: rewrite removeIfExists_spec in E; subst res; simpl; auto.
  unfold exec_pg_restore, modify in E. unfold_M in E.
  destruct r; rewrite removeIfExists_spec in E; subst res; simpl; split_and!; auto;
    right; exists url; by rewrite Hl.
Qed.

(** C4. A destructive restore makes no safety backup: a
    [restoreBackup] call with [verifyOnly = false] and
    [dropExisting = true] on a completed record writes nothing to the
    metadata table or to [activeBackups], and the one command it can
    execute is the [pg_restore --clean --if-exists] of the decrypted
    scratch file; no [pg_dump] runs. *)
Theorem C4_restore_makes_no_safety_backup (r : ExecResult) (options : RestoreOptions)
    (w : World) (row : Row) :
  verifyOnly options = Some false →
  dropExisting options = Some true →
  findUnique (backupId options) (table w) = Some row →
  row_status row = completed →
  let res := restoreBackup r options w in
  table (snd res) = table w ∧
  activeBackups (snd res) = activeBackups w ∧
  (execLog (snd res) = execLog w ∨
   ∃ url,
     execLog (snd res) = (execLog w ++
       [{| command := restoreCommand url true (restorePath (cwd w) (backupId options));
           PGPASSWORD := password url |}])%list).
Proof.
  intros Hv Hd Hrow Hst res.
  assert (res = restoreBackup r options w) as E by done.
  clearbody res.
  unfold restoreBackup in E. rewrite Hv, Hd in E.
  change (default false (Some true)) with true in E.
  change (default false (Some false)) with false in E.
  unfold mbind, M_bind, bind, getBackupMetadata, get in E.
  rewrite Hrow in E.
  apply findUnique_Some in Hrow as [_ Hid].
  match type of E with context [performRestore _ ?b] => set (backup := b) in E end.
  cbv iota beta in E. rewrite decide_False in E by (by intros []).
  pose proof (performRestore_effects r backup (targetDatabase options) true w) as H.
  change (id backup) with (row_backupId row) in H. rewrite Hid in H.
  unfold try_catch, throw in E.
  destruct (performRestore r backup (targetDatabase options) true w) as [[[]|e|] w'];
    by subst res.
Qed.
End RestoreFacts.

(** ** Creating while another backup is active *)

Section IgnoresActive.
Lemma ignores_ret {A} (x : A) : ignores_active (mret x).
Proof. by intros w a. Qed.

Lemma ignores_throw {A} (e : exn) : ignores_active (throw (A:=A) e).
Proof. by intros w a. Qed.

Lemma ignores_get {A} (g : World → A) :
  (∀ w a, g (setActiveBackups a w) = g w) → ignores_active (get g).
Proof. intros H w a. unfold get. by rewrite H. Qed.

Lemma ignores_modify (g : World → World) :
  (∀ w a, g (setActiveBackups a w) = setActiveBackups a (g w)) →
  ignores_active (modify g).
Proof. intros H w a. unfold modify. by rewrite H. Qed.

Lemma ignores_bind {A B} (m : M A) (k : A → M B) :
  ignores_active m → (∀ x, ignores_active (k x)) → ignores_active (m ≫= k).
Proof.
  intros Hm Hk w a. unfold mbind, M_bind, bind. rewrite Hm.
  destruct (m w) as [[x|e|] w1]; simpl; try done. apply Hk.
Qed.

Lemma ignores_try_catch {A} (m : M A) (h : exn → M A) :
  ignores_active m → (∀ e, ignores_active (h e)) → ignores_active (try_catch m h).
Proof.
  intros Hm Hh w a. unfold try_catch. rewrite Hm.
  destruct (m w) as [[x|e|] w1]; simpl; try done. apply Hh.
Qed.

Lemma ignores_try_finally {A} (m : M A) (fin : M unit) :
  ignores_active m → ignores_active fin → ignores_active (try_finally m fin).
Proof.
  intros Hm Hfin w a. unfold try_finally. rewrite Hm.
  destruct (m w) as [[x|e|] w1]; simpl; try done;
    rewrite Hfin; by destruct (fin w1) as [[[]|e'|] w2].
Qed.

Lemma ignores_for_each {A} (l : list A) (body : A → M unit) :
  (∀ x, ignores_active (body x)) → ignores_active (for_each l body).
Proof.
  intros Hb. induction l as [|x l IH]; simpl.
  - apply ignores_ret.
  - apply ignores_bind; auto.
Qed.

Lemma ignores_readFile (p : string) : ignores_active (readFile p).
Proof. intros w a. unfold readFile. simpl_world. by case_match. Qed.

Lemma ignores_stat (p : string) : ignores_active (stat p).
Proof. intros w a. unfold stat. simpl_world. by case_match. Qed.

Lemma ignores_encryptFile {P : Platform} (iv : bytes) (inputPath outputPath : string) :
  ignores_active (encryptFile iv inputPath outputPath).
Proof. intros w a. unfold encryptFile. simpl_world. by case_match. Qed.

(** The state of [activeBackups] is untouched by such a computation. *)
Lemma ignores_active_unchanged {A} (m : M A) (w : World) :
  ignores_active m → activeBackups (snd (m w)) = activeBackups w.
Proof.
  intros H. specialize (H w (activeBackups w)).
  assert (setActiveBackups (activeBackups w) w = w) as Hw by (by destruct w).
  rewrite Hw in H. by rewrite H at 1.
Qed.
End IgnoresActive.

Ltac blind_step :=
  first
    [ apply ignores_readFile | apply ignores_stat | apply ignores_encryptFile
    | apply ignores_bind | apply ignores_try_catch | apply ignores_try_finally
    | apply ignores_for_each
    | apply ignores_ret | apply ignores_throw
    | apply ignores_get; intros; reflexivity
    | apply ignores_modify; intros; reflexivity
    | match goal with
      | |- ignores_active (match ?x with _ => _ end) => destruct x
      | |- ∀ _, _ => intros
      end ].
Ltac blind := repeat blind_step.

Section Exclusivity.
Context {P : Platform}.

Lemma ignores_performBackup (i : CreateInputs) (backupId : string) (ty : BackupType) :
  ignores_active (performBackup i backupId ty).
Proof. unfold performBackup, exec_pg_dump. blind. Qed.

Lemma ignores_saveBackupMetadata (savedAt : Date) (newId : string) (m : BackupMetadata) :
  ignores_active (saveBackupMetadata savedAt newId m).
Proof. unfold saveBackupMetadata. blind. Qed.

Lemma ignores_deleteBackup (k : string) : ignores_active (deleteBackup k).
Proof. unfold deleteBackup, getBackupMetadata. blind. Qed.

Lemma ignores_cleanupOldBackups (now : Date) : ignores_active (cleanupOldBackups now).
Proof. unfold cleanupOldBackups. blind. Qed.

(** The common shape of the three create methods: register, run the
    body, unregister in [finally]. *)
Lemma create_shape {A} (backupId : string) (metadata : BackupMetadata) (body : M A)
    (w : World) :
  ignores_active body →
  (activate backupId metadata;; try_finally body (deactivate backupId)) w =
    (fst (body w),
     setActiveBackups
       (match fst (body w) with
        | NeverSettles => <[backupId := metadata]> (activeBackups w)
        | _ => delete backupId (activeBackups w)
        end) (snd (body w))).
Proof.
  intros Hb. unfold activate, deactivate. unfold_M. rewrite Hb.
  pose proof (ignores_active_unchanged body w Hb) as Ha.
  destruct (body w) as [[x|e|] w1]; simpl in *; try done;
    by rewrite delete_insert_eq.
Qed.

Lemma create_shape_not_exclusive {A} (backupId : string) (metadata : BackupMetadata)
    (body : M A) (w : World) (other : string) (running : BackupMetadata) :
  ignores_active body →
  activeBackups w !! other = Some running →
  other ≠ backupId →
  not_exclusive (activate backupId metadata;; try_finally body (deactivate backupId))
                w other running.
Proof.
  intros Hb Hother Hne. unfold not_exclusive.
  rewrite !create_shape by done. rewrite (Hb w ∅). simpl.
  split_and!; try done.
  destruct (fst (body w)); simpl.
  - by rewrite lookup_delete_ne.
  - by rewrite lookup_delete_ne.
  - by rewrite lookup_insert_ne.
Qed.

(** C1. A create call issued while another backup is
    active is not turned away: each of the three create methods runs its
    pipeline exactly as with no backup active (same outcome, same files,
    same table, same commands), and the entry of the running backup in
    [activeBackups], whose id differs from the new one, stays as it is. *)
Theorem C1_create_runs_beside_active_backup (i : CreateInputs) (reason : string)
    (w : World) (other : string) (running : BackupMetadata) :
  activeBackups w !! other = Some running →
  other ≠ generateBackupId (i_isoNow i) (i_randomHex i) →
  not_exclusive (createManualBackup i) w other running ∧
  not_exclusive (createScheduledBackup i) w other running ∧
  not_exclusive (createAutomaticBackup reason i) w other running.
Proof.
  intros Hother Hne. split_and!.
  - apply create_shape_not_exclusive; try done.
    blind; auto using ignores_performBackup, ignores_saveBackupMetadata.
  - apply create_shape_not_exclusive; try done.
    blind; auto using ignores_performBackup, ignores_saveBackupMetadata,
                      ignores_cleanupOldBackups.
  - apply create_shape_not_exclusive; try done.
    blind; auto using ignores_performBackup, ignores_saveBackupMetadata.
Qed.
End Exclusivity.

(** ** Where the pipeline writes and what it records *)

Lemma string_drop_prefix_length (pat s : string) :
  String.prefix pat s = true →
  (String.length (string_drop (String.length pat) s) + String.length pat
   = String.length s)%nat.
Proof.
  revert s. induction pat as [|c pat IH]; intros s H.
  - simpl. lia.
  - destruct s as [|c' s]; simpl in H; [done|].
    destruct (Ascii.ascii_dec c c'); [|done].
    specialize (IH s H). simpl. lia.
Qed.

Lemma prefix_append (pat rest : string) : String.prefix pat (pat +:+ rest) = true.
Proof.
  induction pat as [|c pat IH]; simpl.
  - by destruct rest.
  - by destruct (Ascii.ascii_dec c c).
Qed.

(** Replacing an occurrence of [pat] by the empty string shortens the
    string by the length of [pat]. *)
Lemma string_replace_length (pat before rest : string) :
  (String.length (string_replace pat "" (before +:+ pat +:+ rest)) + String.length pat
   = String.length (before +:+ pat +:+ rest))%nat.
Proof.
  induction before as [|c before IH].
  - change ("" +:+ pat +:+ rest) with (pat +:+ rest).
    destruct (pat +:+ rest) as [|c s] eqn:E.
    + simpl. destruct pat; [simpl; lia|done].
    + rewrite <- E. 
      assert (string_replace pat "" (pat +:+ rest)
              = string_drop (String.length pat) (pat +:+ rest)) as ->.
      { rewrite E. cbn [string_replace]. rewrite <- E.
        by rewrite prefix_append. }
      apply string_drop_prefix_length, prefix_append.
  - change (String c before +:+ pat +:+ rest)
      with (String c (before +:+ pat +:+ rest)).
    cbn [string_replace].
    destruct (String.prefix pat (String c (before +:+ pat +:+ rest))) eqn:Hp.
    + by apply string_drop_prefix_length.
    + simpl. lia.
Qed.

Lemma string_replace_shorter (before : string) :
  (String.length (string_replace ".enc" "" (before +:+ ".enc")) + 4
   = String.length (before +:+ ".enc"))%nat.
Proof.
  pose proof (string_replace_length ".enc" before "") as H.
  assert (".enc" +:+ "" = ".enc") as E by done.
  by rewrite E in H.
Qed.

Lemma find_snoc {A} (f : A → bool) (l : list A) (x : A) :
  find f l = None → f x = true → find f (l ++ [x]) = Some x.
Proof.
  induction l as [|y l IH]; simpl; intros Hl Hx.
  - by rewrite Hx.
  - destruct (f y); [done|]. by apply IH.
Qed.

(** After the upsert the record is found under the metadata's id and
    carries its status, size, checksum and path. *)
Lemma upsert_findUnique (m : BackupMetadata) (savedAt : Date) (newId : string)
    (t : list Row) :
  ∃ r, findUnique (id m) (upsert m savedAt newId t) = Some r ∧
       row_backupId r = id m ∧ row_status r = status m ∧ row_size r = size m ∧
       row_checksum r = checksum m ∧ row_path r = path m.
Proof.
  unfold upsert. destruct (findUnique (id m) t) as [r0|] eqn:Hf.
  - exists (updateRow m savedAt r0). split; [|by apply findUnique_Some in Hf as [_ ?]].
    unfold findUnique in *. induction t as [|r t IH]; [done|].
    simpl in *. case_decide as Hr.
    + rewrite bool_decide_eq_true_2 in Hf by done. injection Hf as ->.
      simpl. by rewrite bool_decide_eq_true_2.
    + rewrite bool_decide_eq_false_2 in Hf by done.
      rewrite bool_decide_eq_false_2 by done. by apply IH.
  - exists (createRow m savedAt newId). split; [|done].
    unfold findUnique in *. apply find_snoc; [done|].
    by apply bool_decide_eq_true_2.
Qed.

Lemma string_app_assoc (a b c : string) : (a +:+ b) +:+ c = a +:+ (b +:+ c).
Proof.
  induction a as [|x a IH]; [done|].
  change (String x ((a +:+ b) +:+ c) = String x (a +:+ (b +:+ c))). by rewrite IH.
Qed.

Lemma string_app_length (a b : string) :
  String.length (a +:+ b) = (String.length a + String.length b)%nat.
Proof.
  induction a as [|x a IH]; [done|].
  change (S (String.length (a +:+ b)) = S (String.length a + String.length b)).
  by rewrite IH.
Qed.

Lemma encPath_ends_enc (dir backupId : string) :
  encPath dir backupId = (dir +:+ "/backups/" +:+ backupId) +:+ ".enc".
Proof.
  unfold encPath, path_join. rewrite !string_app_assoc. reflexivity.
Qed.

Lemma writtenPath_length (dir backupId : string) :
  (String.length (writtenPath dir backupId) + 4
   = String.length (encPath dir backupId))%nat.
Proof.
  unfold writtenPath. rewrite encPath_ends_enc. apply string_replace_shorter.
Qed.

Lemma sqlPath_length (dir backupId : string) :
  String.length (sqlPath dir backupId) = String.length (encPath dir backupId).
Proof. unfold sqlPath, encPath, path_join. by rewrite !string_app_length. Qed.

Lemma encPath_ne_writtenPath (dir backupId : string) :
  encPath dir backupId ≠ writtenPath dir backupId.
Proof.
  intros E. pose proof (writtenPath_length dir backupId) as H.
  rewrite <- E in H. lia.
Qed.

Lemma sqlPath_ne_writtenPath (dir backupId : string) :
  sqlPath dir backupId ≠ writtenPath dir backupId.
Proof.
  intros E. pose proof (writtenPath_length dir backupId) as H.
  rewrite <- E, sqlPath_length in H. lia.
Qed.

Lemma encPath_ne_sqlPath (dir backupId : string) :
  encPath dir backupId ≠ sqlPath dir backupId.
Proof.
  unfold encPath, sqlPath, path_join. intros E.
  repeat apply (inj (String.append _)) in E. discriminate E.
Qed.

Section Pipeline.
Context {P : Platform}.

(** The run of [performBackup] when [DATABASE_URL] is set and parses and
    [pg_dump] succeeds with output [out]. *)
Lemma performBackup_success (i : CreateInputs) (backupId : string) (ty : BackupType)
    (w : World) (databaseUrl : string) (url : URL) (out : bytes) :
  or_else (env w !! "DATABASE_URL") None = Some databaseUrl →
  parseURL databaseUrl = Some url →
  i_pg_dump i = DumpOk out →
  performBackup i backupId ty w =
    (Fulfilled {| res_size := Z.of_nat (length out);
                  res_checksum := sha256_hex out;
                  res_duration := i_endTime i - i_startTime i;
                  res_path := encPath (cwd w) backupId |},
     setFiles
       (delete (sqlPath (cwd w) backupId)
          (<[writtenPath (cwd w) backupId :=
               (i_iv i ++ aes_256_cbc_encrypt (encryptionKey w) (i_iv i) out)%list]>
             (<[sqlPath (cwd w) backupId := out]> (files w))))
       (logExec {| command := dumpCommand url (sqlPath (cwd w) backupId);
                   PGPASSWORD := password url |} w)).
Proof.
  intros Hurl Hparse Hdump.
  unfold performBackup, exec_pg_dump, writeFile, stat, readFile, encryptFile, remove.
  unfold_M. rewrite Hurl, Hparse, Hdump. simpl_world.
  fold (sqlPath (cwd w) backupId). fold (encPath (cwd w) backupId).
  fold (writtenPath (cwd w) backupId).
  repeat (progress (simpl_world; rewrite ?lookup_insert_eq)).
  reflexivity.
Qed.
End Pipeline.

Section Completed.
Context {P : Platform}.

(** The [try] block shared by the create methods, on a successful run:
    the metadata is completed from [performBackup]'s result and saved;
    the [catch] block is not entered. *)
Lemma create_try_success (i : CreateInputs) (backupId : string) (ty : BackupType)
    (handler : exn → M BackupMetadata)
    (w : World) (databaseUrl : string) (url : URL) (out : bytes) :
  or_else (env w !! "DATABASE_URL") None = Some databaseUrl →
  parseURL databaseUrl = Some url →
  i_pg_dump i = DumpOk out →
  let metadata :=
    markCompleted (newMetadata backupId i ty)
      {| res_size := Z.of_nat (length out); res_checksum := sha256_hex out;
         res_duration := i_endTime i - i_startTime i;
         res_path := encPath (cwd w) backupId |} in
  try_catch
    (result ← performBackup i backupId ty;
     let metadata := markCompleted (newMetadata backupId i ty) result in
     saveBackupMetadata (i_savedAt i) (i_newRowId i) metadata;;
     mret metadata)
    handler w
  = (Fulfilled metadata,
     setTable (upsert metadata (i_savedAt i) (i_newRowId i) (table w))
       (setFiles
          (delete (sqlPath (cwd w) backupId)
             (<[writtenPath (cwd w) backupId :=
                  (i_iv i ++ aes_256_cbc_encrypt (encryptionKey w) (i_iv i) out)%list]>
                (<[sqlPath (cwd w) backupId := out]> (files w))))
          (logExec {| command := dumpCommand url (sqlPath (cwd w) backupId);
                      PGPASSWORD := password url |} w))).
Proof.
  intros Hurl Hparse Hdump metadata.
  unfold try_catch. unfold mbind at 1. unfold M_bind, bind.
  rewrite (performBackup_success i backupId ty w databaseUrl url out) by done.
  reflexivity.
Qed.

Lemma createManualBackup_success (i : CreateInputs) (w : World)
    (databaseUrl : string) (url : URL) (out : bytes) :
  or_else (env w !! "DATABASE_URL") None = Some databaseUrl →
  parseURL databaseUrl = Some url →
  i_pg_dump i = DumpOk out →
  createManualBackup i w
    = (Fulfilled (completedMetadata i manual w out), completedWorld i manual w url out).
Proof.
  intros Hurl Hparse Hdump.
  unfold createManualBackup, activate, deactivate. cbv zeta.
  unfold mbind at 1. unfold M_bind, bind, modify, try_finally.
  rewrite (create_try_success _ _ _ _ _ databaseUrl url out) by done.
  unfold completedWorld, completedMetadata. simpl_world.
  by rewrite delete_insert_eq.
Qed.

Lemma createAutomaticBackup_success (reason : string) (i : CreateInputs) (w : World)
    (databaseUrl : string) (url : URL) (out : bytes) :
  or_else (env w !! "DATABASE_URL") None = Some databaseUrl →
  parseURL databaseUrl = Some url →
  i_pg_dump i = DumpOk out →
  createAutomaticBackup reason i w
    = (Fulfilled (completedMetadata i automatic w out),
       completedWorld i automatic w url out).
Proof.
  intros Hurl Hparse Hdump.
  unfold createAutomaticBackup, activate, deactivate. cbv zeta.
  unfold mbind at 1. unfold M_bind, bind, modify, try_finally.
  rewrite (create_try_success _ _ _ _ _ databaseUrl url out) by done.
  unfold completedWorld, completedMetadata. simpl_world.
  by rewrite delete_insert_eq.
Qed.

(** The row saved by a successful run. *)
Lemma completedWorld_row (i : CreateInputs) (ty : BackupType) (w : World)
    (url : URL) (out : bytes) :
  ∃ row,
    findUnique (generateBackupId (i_isoNow i) (i_randomHex i))
               (table (completedWorld i ty w url out)) = Some row ∧
    row_status row = completed ∧
    row_size row = Z.of_nat (length out) ∧
    row_checksum row = sha256_hex out ∧
    row_path row = encPath (cwd w) (generateBackupId (i_isoNow i) (i_randomHex i)).
Proof.
  destruct (upsert_findUnique (completedMetadata i ty w out) (i_savedAt i)
              (i_newRowId i) (table w)) as (row & Hf & _ & Hst & Hsz & Hck & Hp).
  exists row. by split_and!.
Qed.

(** The files of the run: the encrypted file is where [encryptFile] was
    told to write; the recorded path is not written to. *)
Lemma completedWorld_files (i : CreateInputs) (ty : BackupType) (w : World)
    (url : URL) (out : bytes) :
  let backupId := generateBackupId (i_isoNow i) (i_randomHex i) in
  let fs := files (completedWorld i ty w url out) in
  fs !! writtenPath (cwd w) backupId
    = Some (i_iv i ++ aes_256_cbc_encrypt (encryptionKey w) (i_iv i) out)%list ∧
  fs !! sqlPath (cwd w) backupId = None ∧
  fs !! encPath (cwd w) backupId = files w !! encPath (cwd w) backupId.
Proof.
  intros backupId fs. subst fs. unfold completedWorld. simpl_world.
  fold backupId. split_and!.
  - rewrite lookup_delete_ne by apply sqlPath_ne_writtenPath.
    apply lookup_insert_eq.
  - apply lookup_delete_eq.
  - rewrite lookup_delete_ne by (symmetry; apply encPath_ne_sqlPath).
    rewrite lookup_insert_ne by (symmetry; apply encPath_ne_writtenPath).
    rewrite lookup_insert_ne by (symmetry; apply encPath_ne_sqlPath).
    done.
Qed.

(** C6. A successful [createManualBackup] persists a record with status
    [completed] whose [path] names no file: the encrypted file was written
    to the path with [".enc"] cut off, and nothing was written to
    [<backupId>.enc]. *)
Theorem C6_completed_record_path_has_no_file (i : CreateInputs) (w : World)
    (databaseUrl : string) (url : URL) (out : bytes) :
  or_else (env w !! "DATABASE_URL") None = Some databaseUrl →
  parseURL databaseUrl = Some url →
  i_pg_dump i = DumpOk out →
  files w !! encPath (cwd w) (generateBackupId (i_isoNow i) (i_randomHex i)) = None →
  ∃ metadata row w',
    createManualBackup i w = (Fulfilled metadata, w') ∧
    findUnique (id metadata) (table w') = Some row ∧
    row_status row = completed ∧
    row_path row = encPath (cwd w) (id metadata) ∧
    files w' !! row_path row = None ∧
    row_path row ≠ writtenPath (cwd w) (id metadata) ∧
    is_Some (files w' !! writtenPath (cwd w) (id metadata)).
Proof.
  intros Hurl Hparse Hdump Hfresh.
  destruct (completedWorld_row i manual w url out) as (row & Hf & Hst & _ & _ & Hp).
  destruct (completedWorld_files i manual w url out) as (Hw & _ & He).
  exists (completedMetadata i manual w out), row, (completedWorld i manual w url out).
  rewrite (createManualBackup_success i w databaseUrl url out) by done.
  cbn [completedMetadata markCompleted newMetadata id].
  rewrite Hp. split_and!; try done.
  - by rewrite He.
  - apply encPath_ne_writtenPath.
Qed.
End Completed.

(** ** Statistics *)

Lemma countWhere_disjoint (a b : BackupStatus) (t : list Row) :
  a ≠ b → (countWhere a t + countWhere b t ≤ length t)%nat.
Proof.
  intros Hab. unfold countWhere. induction t as [|r t IH]; [done|].
  rewrite !filter_cons. cbn [length].
  destruct (decide (row_status r = a)) as [Ha|Ha];
    destruct (decide (row_status r = b)) as [Hb|Hb]; cbn [length]; try lia.
  congruence.
Qed.

Lemma maxTimestamp_nil_iff (t : list Row) : maxTimestamp t = None ↔ t = [].
Proof. by destruct t. Qed.

(** [maxTimestamp] is the timestamp of a row and bounds every row's. *)
Lemma maxTimestamp_spec (t : list Row) (l : Date) :
  maxTimestamp t = Some l ↔
  (∃ r, r ∈ t ∧ row_timestamp r = l) ∧ (∀ r, r ∈ t → row_timestamp r ≤ l).
Proof.
  revert l. induction t as [|x t IH]; intros l.
  - split; [done|]. intros [(r & Hr & _) _]. by apply elem_of_nil in Hr.
  - cbn [maxTimestamp foldr]. fold (maxTimestamp t).
    destruct (maxTimestamp t) as [m|] eqn:Hm.
    + destruct (IH m) as [IH1 _]. destruct (IH1 eq_refl) as [(r & Hr & Hrm) Hall].
      split.
      * intros [= <-]. split.
        -- destruct (Z.max_spec (row_timestamp x) m) as [[? ->]|[? ->]].
           ++ exists r. split; [by right|done].
           ++ exists x. split; [by left|done].
        -- intros y Hy. apply elem_of_cons in Hy as [->|Hy]; [lia|].
           specialize (Hall y Hy). lia.
      * intros [(y & Hy & Hyl) Hbound]. f_equal.
        assert (row_timestamp x ≤ l) by (apply Hbound; by left).
        assert (m ≤ l) by (rewrite <- Hrm; apply Hbound; by right).
        apply elem_of_cons in Hy as [->|Hy]; [lia|].
        specialize (Hall y Hy). lia.
    + apply maxTimestamp_nil_iff in Hm as ->. split.
      * intros [= <-]. split.
        -- exists x. split; [by left|done].
        -- intros y Hy. apply list_elem_of_singleton in Hy as ->. lia.
      * intros [(y & Hy & Hyl) _]. apply list_elem_of_singleton in Hy as ->.
        by rewrite Hyl.
Qed.

(** X1. [getBackupStats] changes nothing and its numbers fit together:
    completed and failed records together are never more than all records;
    [lastBackup] is absent exactly on an empty table and otherwise is the
    timestamp of a record that no record exceeds; [totalSize] is the sum of
    the recorded sizes; [activeBackups] counts the entries of the map. *)
Theorem getBackupStats_consistent (w : World) :
  ∃ s,
    getBackupStats w = (Fulfilled s, w) ∧
    (successfulBackups s + failedBackups s ≤ totalBackups s)%nat ∧
    (lastBackup s = None ↔ table w = []) ∧
    (∀ l, lastBackup s = Some l →
          (∃ r, r ∈ table w ∧ row_timestamp r = l) ∧
          (∀ r, r ∈ table w → row_timestamp r ≤ l)) ∧
    totalSize s = foldr (λ r acc, row_size r + acc) 0 (table w) ∧
    stats_activeBackups s = base.size (activeBackups w).
Proof.
  eexists. split; [reflexivity|]. cbn.
  split_and!.
  - by apply countWhere_disjoint.
  - apply maxTimestamp_nil_iff.
  - intros l Hl. by apply maxTimestamp_spec.
  - by destruct (table w).
  - done.
Qed.

Lemma maxTimestamp_head_sorted (t s : list Row) :
  s ≡ₚ t → StronglySorted newer_first s →
  maxTimestamp t = row_timestamp <$> head s.
Proof.
  intros Hperm Hsorted. destruct s as [|x s].
  - apply Permutation_nil_l in Hperm as <-. done.
  - cbn. apply maxTimestamp_spec. split.
    + exists x. split; [|done]. rewrite <- Hperm. by left.
    + intros r Hr. rewrite <- Hperm in Hr.
      apply elem_of_cons in Hr as [->|Hr]; [lia|].
      apply StronglySorted_inv in Hsorted as [_ Hall].
      rewrite Forall_forall in Hall. apply (Hall r Hr).
Qed.

(** X2. Statistics and list agree on the newest backup: [lastBackup] of
    [getBackupStats] is the timestamp of the first entry of
    [getBackupList], and is absent exactly when the list is empty. *)
Theorem lastBackup_is_head_of_list (w : World) :
  ∃ s l,
    getBackupStats w = (Fulfilled s, w) ∧
    getBackupList w = (Fulfilled l, w) ∧
    lastBackup s = r_timestamp <$> head l.
Proof.
  eexists _, _. split; [reflexivity|]. split; [reflexivity|]. cbn.
  rewrite (maxTimestamp_head_sorted (table w) (merge_sort newer_first (table w))).
  - unfold findManyNewest.
    by destruct (merge_sort newer_first (table w)).
  - apply merge_sort_Permutation.
  - apply StronglySorted_merge_sort; apply _.
Qed.

(** ** The controller *)

Lemma findManyNewest_subset (t : list Row) (r : Row) :
  r ∈ findManyNewest t → r ∈ t.
Proof.
  unfold findManyNewest. intros H.
  apply (subseteq_take 100) in H.
  by rewrite (merge_sort_Permutation newer_first t) in H.
Qed.


(** ** The restore script *)

Section ScriptFacts.
Context {P : Platform}.

(** X4. With [--verify-only] on the command line the script starts no
    verification: it ends with exit code 1 or returns after its messages,
    and the world is as before (no file read or written, no command). *)
Theorem script_verify_only_verifies_nothing (argv : list string)
    (answer : option string) (r : ExecResult) (w : World) :
  "--verify-only" ∈ argv →
  snd (runBackupRestore argv answer r w) = w ∧
  (fst (runBackupRestore argv answer r w) = ProcessExit 1 ∨
   fst (runBackupRestore argv answer r w) = NothingStarted).
Proof.
  intros Hflag. unfold runBackupRestore.
  rewrite (bool_decide_eq_true_2 _ Hflag).
  destruct (or_else (argv !! 2%nat) None) as [k|]; [|by auto].
  unfold getBackupList, get.
  destruct (find _ _) as [b|]; [|by auto].
  case_decide; by auto.
Qed.

Lemma restoreBackup_unknown (r : ExecResult) (options : RestoreOptions) (w : World) :
  findUnique (backupId options) (table w) = None →
  restoreBackup r options w =
    (Rejected (NotFoundException
                 ("النسخة الاحتياطية غير موجودة: " +:+ backupId options)), w).
Proof.
  intros H. unfold restoreBackup, getBackupMetadata. unfold_M. by rewrite H.
Qed.

(** X5. The script finds the record by its primary key and restores by
    [backupId].  When no primary key of the table is also some record's
    [backupId] (keys given by the database), no run of the script restores
    anything: the world is as before and [app.close()] after a restore is
    never reached. *)
Theorem script_never_restores_under_database_keys (argv : list string)
    (answer : option string) (r : ExecResult) (w : World) :
  (∀ r1 r2, r1 ∈ table w → r2 ∈ table w → row_id r1 ≠ row_backupId r2) →
  snd (runBackupRestore argv answer r w) = w ∧
  fst (runBackupRestore argv answer r w) ≠ AppClosed ∧
  fst (runBackupRestore argv answer r w) ≠ RestorePending.
Proof.
  intros Hkeys. unfold runBackupRestore.
  destruct (or_else (argv !! 2%nat) None) as [k|]; [|done].
  unfold getBackupList, get.
  destruct (find _ _) as [b|] eqn:Hb; [|done].
  apply find_some in Hb as [Hin Hk]. apply bool_decide_eq_true in Hk.
  apply in_map_iff in Hin as (row & <- & Hrow).
  apply list_elem_of_In, findManyNewest_subset in Hrow.
  assert (∀ t d v,
            script_performRestore r k t d v w = (ProcessExit 1, w)) as Hrun.
  { intros t d v. unfold script_performRestore.
    rewrite restoreBackup_unknown; [done|]. cbn [backupId].
    destruct (findUnique k (table w)) as [r2|] eqn:Hr2; [|done].
    apply findUnique_Some in Hr2 as [Hin2 Hk2].
    destruct (Hkeys row r2 Hrow Hin2). cbn in Hk. congruence. }
  repeat case_decide; try done; destruct answer; repeat case_decide;
    rewrite ?Hrun; done.
Qed.
End ScriptFacts.

Section ScriptTarget.
Context {P : Platform}.

Lemma performRestore_unparsable_target (r : ExecResult) (backup : BackupMetadata)
    (target : string) (dropExisting : bool) (w : World) :
  target ≠ "" → parseURL target = None →
  execLog (snd (performRestore r backup (Some target) dropExisting w)) = execLog w ∧
  ∀ u, fst (performRestore r backup (Some target) dropExisting w) ≠ Fulfilled u.
Proof.
  intros Hne Hparse.
  remember (performRestore r backup (Some target) dropExisting w) as res eqn:E.
  unfold performRestore in E.
  unfold mbind at 1 in E. unfold M_bind, bind, get in E.
  fold (restorePath (cwd w) (id backup)) in E.
  revert E. generalize (restorePath (cwd w) (id backup)). intros p E.
  unfold try_finally in E. unfold mbind at 1 in E. unfold M_bind, bind in E.
  pose proof (decryptFile_outside (path backup) p w) as Hd.
  apply outside_inv in Hd as (_ & _ & _ & _ & Hl & _).
  destruct (decryptFile (path backup) p w) as [[q|e|] w1]; simpl in *.
  2,3: rewrite ?removeIfExists_spec in E; subst res; simpl; by split.
  unfold mbind, M_bind, bind, get, throw in E.
  unfold or_else in E at 1. rewrite decide_False in E by done.
  rewrite Hparse in E. rewrite removeIfExists_spec in E. subst res.
  simpl. by split.
Qed.

(** X6. A word in fourth position of the command line is taken as the
    target database, a flag such as [--drop-existing] included.  When it is
    not a URL, the script hands no command to [execAsync] and never reaches
    [app.close()] after a restore. *)
Theorem script_fourth_argument_is_the_target (argv : list string)
    (answer : option string) (r : ExecResult) (w : World) (target : string) :
  argv !! 3%nat = Some target →
  target ≠ "" →
  parseURL target = None →
  execLog (snd (runBackupRestore argv answer r w)) = execLog w ∧
  fst (runBackupRestore argv answer r w) ≠ AppClosed.
Proof.
  intros Harg Hne Hparse. unfold runBackupRestore. rewrite Harg.
  destruct (or_else (argv !! 2%nat) None) as [k|]; [|done].
  unfold getBackupList, get.
  destruct (find _ _) as [b|]; [|done].
  assert (∀ d,
            execLog (snd (script_performRestore r k (Some target) d false w))
              = execLog w ∧
            fst (script_performRestore r k (Some target) d false w) ≠ AppClosed)
    as Hrun.
  { intros d. unfold script_performRestore, restoreBackup.
    unfold mbind, M_bind, bind, getBackupMetadata, get.
    cbn [backupId targetDatabase dropExisting verifyOnly].
    destruct (findUnique k (table w)) as [row|]; [|by split].
    cbv iota beta. case_decide; [by split|].
    change (default false (Some d)) with d.
    change (default false (Some false)) with false.
    unfold try_catch, throw. cbv iota.
    match goal with
    | |- context [performRestore r ?b ?t ?dd w] =>
        destruct (performRestore_unparsable_target r b target dd w Hne Hparse)
          as [Hl Hnf];
        destruct (performRestore r b t dd w) as [[[]|e|] w']
    end; simpl in *; try done. by destruct (Hnf tt). }
  destruct (bool_decide ("--verify-only" ∈ argv)).
  - by case_decide.
  - repeat case_decide; try done; destruct answer; repeat case_decide;
      try done; apply Hrun.
Qed.
End ScriptTarget.

(** ** Decrypting small files, and the self-test *)

Lemma utf8_length (s : string) : length (utf8 s) = String.length s.
Proof.
  unfold utf8. rewrite length_map.
  induction s as [|c s IH]; [done|]. cbn. by rewrite IH.
Qed.

Section SmallFiles.
Context {P : Platform} {L : PlatformLaws P}.

(** A file of at most one chunk: whatever it holds, the decipher gets no
    data (or no IV), and the promise stays open over an empty output. *)
Lemma decryptFile_one_chunk (data : bytes) (inputPath outputPath : string) (w : World) :
  files w !! inputPath = Some data →
  (length data ≤ highWaterMark)%nat →
  decryptFile inputPath outputPath w
    = (NeverSettles, setFiles (<[outputPath := []]> (files w)) w).
Proof.
  intros Hdata Hlen. unfold decryptFile. rewrite Hdata.
  destruct data as [|b data]; [done|].
  rewrite createReadStream_single by done.
  case_decide; [|done].
  cbn [concat]. by rewrite aes_256_cbc_decrypt_nil.
Qed.

(** X7. [decryptFile] gives no answer on any existing input of at most
    65536 bytes, be it empty, truncated or a complete small artifact: the
    promise is neither resolved nor rejected, the output file is created
    empty, and nothing else changes. *)
Theorem decryptFile_never_settles_on_small_input (data : bytes)
    (inputPath outputPath : string) (w : World) :
  files w !! inputPath = Some data →
  Z.of_nat (length data) ≤ 65536 →
  fst (decryptFile inputPath outputPath w) = NeverSettles ∧
  files (snd (decryptFile inputPath outputPath w)) = <[outputPath := []]> (files w) ∧
  outside outputPath (snd (decryptFile inputPath outputPath w)) = outside outputPath w.
Proof.
  intros Hdata Hlen.
  rewrite (decryptFile_one_chunk data) by (try done; pose proof highWaterMark_Z; lia).
  split_and!; try done.
  unfold outside. simpl_world. by rewrite delete_insert_eq.
Qed.

Variable reserialize : bytes → string + string.

(** X8. The self-test never reports: whatever the platform's cipher, the
    encrypted test file is a single chunk, so [decryptFile] stays open and
    with it [testBackup]; the encrypted file and an empty decrypted file
    are left behind. *)
Theorem testBackup_never_settles (nowMs isoNow : string) (iv : bytes) (w : World) :
  length iv = 16%nat →
  Z.of_nat (String.length isoNow) ≤ 1000 →
  let testBackupId := "test_" +:+ nowMs in
  fst (testBackup reserialize nowMs isoNow iv w) = NeverSettles ∧
  is_Some (files (snd (testBackup reserialize nowMs isoNow iv w))
             !! (testBackupId +:+ "_encrypted")) ∧
  files (snd (testBackup reserialize nowMs isoNow iv w))
    !! (testBackupId +:+ "_decrypted.json") = Some [].
Proof.
  intros Hiv Hiso testBackupId.
  remember (testBackup reserialize nowMs isoNow iv w) as res eqn:E.
  unfold testBackup in E. fold testBackupId in E.
  unfold try_catch in E. unfold mbind at 1 in E. unfold M_bind, bind, get in E.
  unfold mbind at 1 in E. unfold M_bind, bind, writeFile, modify in E.
  unfold mbind at 1 in E. unfold M_bind, bind in E.
  unfold encryptFile at 1 in E. simpl_world_in E.
  rewrite lookup_insert_eq in E.
  unfold mbind at 1 in E. unfold M_bind, bind in E.
  erewrite decryptFile_one_chunk in E.
  - subst res. simpl_world. split; [done|].
    rewrite lookup_insert_eq. split; [|done].
    rewrite lookup_insert_ne.
    + rewrite lookup_insert_eq. by eexists.
    + intros Heq. apply (f_equal String.length) in Heq.
      rewrite !string_app_length in Heq. cbn in Heq. lia.
  - simpl_world. apply lookup_insert_eq.
  - rewrite length_app, aes_256_cbc_encrypt_length, Hiv, utf8_length.
    rewrite string_app_length. unfold testDataJson.
    rewrite !string_app_length. cbn [String.length dquote].
    pose proof highWaterMark_Z.
    match goal with
    | |- context [(?n / 16)%nat] =>
        pose proof (Nat.div_mod_eq n 16); pose proof (Nat.mod_upper_bound n 16)
    end.
    lia.
Qed.
End SmallFiles.

(** ** What [decryptFile] deciphers *)

Lemma highWaterMark_pos : (0 < highWaterMark)%nat.
Proof. pose proof highWaterMark_Z. lia. Qed.

(** The chunks of a stream, put together, are the file. *)
Lemma readChunks_concat (fuel : nat) (data : bytes) :
  (length data ≤ fuel)%nat → concat (readChunks fuel data) = data.
Proof.
  revert data. induction fuel as [|fuel IH]; intros data Hlen.
  - destruct data; [done|]. cbn in Hlen. lia.
  - destruct data as [|b data]; [done|].
    cbn [readChunks concat]. rewrite IH.
    + apply take_drop.
    + rewrite length_drop. pose proof highWaterMark_pos. cbn [length] in *. lia.
Qed.

Lemma createReadStream_cons (data : bytes) :
  data ≠ [] →
  ∃ rest, createReadStream data = take highWaterMark data :: rest ∧
          concat rest = drop highWaterMark data.
Proof.
  intros Hne. unfold createReadStream. destruct data as [|b data]; [done|].
  cbn [length readChunks]. eexists. split; [reflexivity|].
  apply readChunks_concat.
  rewrite length_drop. pose proof highWaterMark_pos. cbn [length]. lia.
Qed.

Section DecryptFacts.
Context {P : Platform}.

Lemma decryptFile_unfold (data : bytes) (inputPath outputPath : string) (w : World) :
  files w !! inputPath = Some data →
  (16 ≤ length data)%nat →
  decryptFile inputPath outputPath w =
    match aes_256_cbc_decrypt (encryptionKey w) (take 16 data)
                              (drop highWaterMark data) with
    | Deciphered plain =>
        (Fulfilled outputPath, setFiles (<[outputPath := plain]> (files w)) w)
    | BadDecrypt written =>
        (NeverSettles, setFiles (<[outputPath := written]> (files w)) w)
    end.
Proof.
  intros Hdata Hlen. unfold decryptFile. rewrite Hdata.
  destruct (createReadStream_cons data) as (rest & -> & Hrest).
  { intros ->. cbn in Hlen. lia. }
  rewrite Hrest.
  assert (take 16 (take highWaterMark data) = take 16 data) as ->.
  { rewrite take_take, Nat.min_l; [done|]. pose proof highWaterMark_Z. lia. }
  rewrite decide_True; [done|].
  rewrite length_take. lia.
Qed.

(** X9. What [decryptFile] computes on a file of at least 16 bytes: the IV
    is the first 16 bytes, and the decipher is fed the file from byte 65536
    on, so bytes 16 to 65535 of the ciphertext are never deciphered.  The
    call is fulfilled with the output path exactly when that deciphering
    succeeds, and then the output file holds its result. *)
Theorem decryptFile_deciphers_past_first_chunk (data : bytes)
    (inputPath outputPath : string) (w : World) :
  files w !! inputPath = Some data →
  (16 ≤ length data)%nat →
  let fed := aes_256_cbc_decrypt (encryptionKey w) (take 16 data)
                                 (drop (Z.to_nat 65536) data) in
  let res := decryptFile inputPath outputPath w in
  (∀ plain, fed = Deciphered plain →
     fst res = Fulfilled outputPath ∧
     files (snd res) = <[outputPath := plain]> (files w)) ∧
  (∀ written, fed = BadDecrypt written →
     fst res = NeverSettles ∧
     files (snd res) = <[outputPath := written]> (files w)).
Proof.
  intros Hdata Hlen fed res. subst fed res.
  rewrite (decryptFile_unfold data) by done.
  fold highWaterMark.
  split; intros x ->; done.
Qed.
End DecryptFacts.

(** ** Restoring: refusals, verification, the restore itself *)

Section RestorePaths.
Context {P : Platform}.

(** X10. [restoreBackup] refuses without touching anything when there is
    no completed record under the id: with [NotFoundException] when no
    record is found, with [BadRequestException] when the record found is
    not [completed]; this holds for verification and restore alike. *)
Theorem restoreBackup_refuses_unknown_and_unfinished (r : ExecResult)
    (options : RestoreOptions) (w : World) :
  row_status <$> findUnique (backupId options) (table w) ≠ Some completed →
  restoreBackup r options w =
    (Rejected
       match findUnique (backupId options) (table w) with
       | None =>
           NotFoundException ("النسخة الاحتياطية غير موجودة: " +:+ backupId options)
       | Some _ =>
           BadRequestException
             ("النسخة الاحتياطية غير جاهزة للاستعادة: " +:+ backupId options)
       end,
     w).
Proof.
  intros H. unfold restoreBackup, getBackupMetadata. unfold_M.
  destruct (findUnique (backupId options) (table w)) as [row|]; [|done].
  cbn [status]. rewrite decide_True; [done|].
  intros Hst. apply H. cbn. by rewrite Hst.
Qed.

Lemma restoreBackup_found (r : ExecResult) (options : RestoreOptions) (w : World)
    (row : Row) :
  findUnique (backupId options) (table w) = Some row →
  row_status row = completed →
  restoreBackup r options w =
    let backup :=
      {| id := row_backupId row; timestamp := row_timestamp row;
         type := row_type row; status := row_status row; size := row_size row;
         checksum := row_checksum row; encrypted := row_encrypted row;
         duration := row_duration row; error := or_else (row_error row) None;
         path := row_path row |} in
    try_catch
      (if default false (verifyOnly options) then verifyBackup backup
       else performRestore r backup (targetDatabase options)
                           (default false (dropExisting options)))
      (λ error, throw error) w.
Proof.
  intros Hrow Hst. unfold restoreBackup, getBackupMetadata.
  unfold mbind, M_bind, bind, get. rewrite Hrow. cbv iota beta.
  cbn [status]. by rewrite decide_False by (by intros []).
Qed.

Lemma try_catch_rethrow {A} (m : M A) (w : World) :
  try_catch m (λ error, throw error) w = m w.
Proof. unfold try_catch, throw. by destruct (m w) as [[a|e|] w']. Qed.

(** X11. Verification of an artifact the decipher accepts: the call is
    fulfilled when the digest of the deciphered bytes is the recorded
    checksum and rejected with the checksum error otherwise; either way
    the record, the artifact and the command log are as before, and the
    scratch file is gone. *)
Theorem verify_compares_digest_with_checksum (r : ExecResult)
    (options : RestoreOptions) (w : World) (row : Row) (data plain : bytes) :
  verifyOnly options = Some true →
  findUnique (backupId options) (table w) = Some row →
  row_status row = completed →
  files w !! row_path row = Some data →
  (16 ≤ length data)%nat →
  aes_256_cbc_decrypt (encryptionKey w) (take 16 data) (drop (Z.to_nat 65536) data)
    = Deciphered plain →
  restoreBackup r options w =
    (if decide (sha256_hex plain = row_checksum row)
     then Fulfilled tt
     else Rejected (Error "Checksum غير متطابق - الملف تالف"),
     setFiles (delete (verifyPath (cwd w) (backupId options)) (files w)) w).
Proof.
  intros Hv Hrow Hst Hdata Hlen Hdec.
  rewrite (restoreBackup_found r options w row) by done.
  cbv zeta. rewrite try_catch_rethrow, Hv. cbn [default from_option Datatypes.id].
  apply findUnique_Some in Hrow as [_ Hid].
  unfold verifyBackup. unfold mbind at 1. unfold M_bind, bind, get.
  cbn [id path checksum]. rewrite Hid.
  fold (verifyPath (cwd w) (backupId options)).
  generalize (verifyPath (cwd w) (backupId options)). intros p.
  unfold try_finally, mbind, M_bind, bind.
  rewrite (decryptFile_unfold data) by done.
  fold highWaterMark in Hdec. rewrite Hdec.
  unfold readFile. simpl_world. rewrite lookup_insert_eq.
  destruct (decide (sha256_hex plain = row_checksum row)) as [Heq|Hne].
  - rewrite decide_False by (by intros []).
    unfold mret, M_ret, ret. rewrite removeIfExists_spec. simpl_world.
    by rewrite delete_insert_eq.
  - rewrite decide_True by done.
    unfold throw. rewrite removeIfExists_spec. simpl_world.
    by rewrite delete_insert_eq.
Qed.

(** X12. A restore whose artifact the decipher accepts and whose target
    URL parses: [pg_restore] is the one command run, on the scratch file,
    with [--clean --if-exists] exactly when [dropExisting] is set; the call
    is fulfilled when the tool succeeds and rejected with the tool's
    message when it fails, and in both cases the scratch file is removed
    and table and [activeBackups] are unchanged. *)
Theorem restore_runs_pg_restore_once (r : ExecResult) (options : RestoreOptions)
    (w : World) (row : Row) (data plain : bytes) (databaseUrl : string) (url : URL) :
  default false (verifyOnly options) = false →
  findUnique (backupId options) (table w) = Some row →
  row_status row = completed →
  files w !! row_path row = Some data →
  (16 ≤ length data)%nat →
  aes_256_cbc_decrypt (encryptionKey w) (take 16 data) (drop (Z.to_nat 65536) data)
    = Deciphered plain →
  or_else (targetDatabase options) (or_else (env w !! "DATABASE_URL") None)
    = Some databaseUrl →
  parseURL databaseUrl = Some url →
  let scratch := restorePath (cwd w) (backupId options) in
  restoreBackup r options w =
    (match r with
     | ExecOk => Fulfilled tt
     | ExecFailed msg => Rejected (Error msg)
     end,
     logExec {| command := restoreCommand url (default false (dropExisting options))
                                          scratch;
                PGPASSWORD := password url |}
       (setFiles (delete scratch (files w)) w)).
Proof.
  intros Hv Hrow Hst Hdata Hlen Hdec Hurl Hparse scratch. subst scratch.
  rewrite (restoreBackup_found r options w row) by done.
  cbv zeta. rewrite try_catch_rethrow, Hv.
  apply findUnique_Some in Hrow as [_ Hid].
  unfold performRestore. unfold mbind at 1. unfold M_bind, bind, get.
  cbn [id path]. rewrite Hid.
  fold (restorePath (cwd w) (backupId options)).
  generalize (restorePath (cwd w) (backupId options)). intros p.
  unfold try_finally, mbind, M_bind, bind.
  rewrite (decryptFile_unfold data) by done.
  fold highWaterMark in Hdec. rewrite Hdec.
  simpl_world. rewrite Hurl, Hparse.
  unfold exec_pg_restore. unfold_M.
  destruct r; rewrite removeIfExists_spec; simpl_world;
    by rewrite delete_insert_eq.
Qed.
End RestorePaths.

Section PendingVerify.
Context {P : Platform} {L : PlatformLaws P}.

(** C5. A verification that does not end.  For a completed record whose
    artifact is a file of at most 65536 bytes (one chunk of the read
    stream), [restoreBackup] with [verifyOnly = true] runs no command and
    leaves the table alone, but its promise never settles: the [finally]
    of [verifyBackup] is not reached and the scratch file
    [temp/verify_<backupId>] stays on disk, empty. *)
Theorem C5_pending_verify_keeps_scratch_file (r : ExecResult)
    (options : RestoreOptions) (w : World) (row : Row) (data : bytes) :
  verifyOnly options = Some true →
  findUnique (backupId options) (table w) = Some row →
  row_status row = completed →
  files w !! row_path row = Some data →
  Z.of_nat (length data) ≤ 65536 →
  let scratch := verifyPath (cwd w) (backupId options) in
  let res := restoreBackup r options w in
  res = (NeverSettles, setFiles (<[scratch := []]> (files w)) w) ∧
  files (snd res) !! scratch = Some [] ∧
  execLog (snd res) = execLog w ∧
  table (snd res) = table w.
Proof.
  intros Hv Hrow Hst Hdata Hlen scratch res.
  assert (res = (NeverSettles, setFiles (<[scratch := []]> (files w)) w)) as ->.
  { subst res scratch.
    rewrite (restoreBackup_found r options w row Hrow Hst). cbv zeta.
    rewrite try_catch_rethrow, Hv.
    change (default false (Some true)) with true. cbv iota.
    unfold verifyBackup. unfold mbind at 1. unfold M_bind, bind, get.
    unfold try_finally. unfold mbind at 1. unfold M_bind, bind.
    cbn [path id].
    rewrite (decryptFile_one_chunk data)
      by (try done; pose proof highWaterMark_Z; lia).
    apply findUnique_Some in Hrow as [_ ->]. reflexivity. }
  split_and!; try done. simpl_world. apply lookup_insert_eq.
Qed.
End PendingVerify.

Section RestoreScratch.
Context {P : Platform}.

Lemma decryptFile_beside (inputPath outputPath : string) :
  preserves (beside outputPath) (decryptFile inputPath outputPath).
Proof.
  intros w. pose proof (decryptFile_outside inputPath outputPath w) as H.
  unfold outside in H. unfold beside. by injection H as -> _ _ _ _ ->.
Qed.

Lemma remove_beside (p : string) : preserves (beside p) (remove p).
Proof.
  intros w. unfold beside, remove, modify. simpl_world.
  by rewrite delete_delete_eq.
Qed.

Lemma performRestore_beside (r : ExecResult) (backup : BackupMetadata)
    (targetDatabase : option string) (dropExisting : bool) (w : World) :
  beside (restorePath (cwd w) (id backup))
         (snd (performRestore r backup targetDatabase dropExisting w))
    = beside (restorePath (cwd w) (id backup)) w.
Proof.
  unfold performRestore. unfold mbind at 1. unfold M_bind, bind, get.
  fold (restorePath (cwd w) (id backup)).
  generalize (restorePath (cwd w) (id backup)). intros p.
  match goal with
  | |- beside _ (snd (?m w)) = _ => cut (preserves (beside p) m); [by intros H|]
  end.
  unfold exec_pg_restore.
  frame; auto using decryptFile_beside, remove_beside.
Qed.

Lemma performRestore_scratch_removed (r : ExecResult) (backup : BackupMetadata)
    (targetDatabase : option string) (dropExisting : bool) (w : World) :
  settled (fst (performRestore r backup targetDatabase dropExisting w)) →
  files (snd (performRestore r backup targetDatabase dropExisting w))
    !! restorePath (cwd w) (id backup) = None.
Proof. apply try_finally_removeIfExists. Qed.

(** X13. A restore (not a verification), whatever its outcome, leaves
    the environment and every file but the scratch path
    [temp/restore_<backupId>.sql] as they were; once the call has settled,
    the decrypted dump is no longer on disk: the scratch path is absent, or
    nothing was touched at all. *)
Theorem restore_leaves_no_decrypted_dump (r : ExecResult) (options : RestoreOptions)
    (w : World) :
  default false (verifyOnly options) = false →
  let scratch := restorePath (cwd w) (backupId options) in
  let res := restoreBackup r options w in
  env (snd res) = env w ∧
  (∀ p, p ≠ scratch → files (snd res) !! p = files w !! p) ∧
  (settled (fst res) →
     files (snd res) = files w ∨ files (snd res) = delete scratch (files w)).
Proof.
  intros Hv scratch res.
  assert (res = restoreBackup r options w) as E by done.
  clearbody res. subst scratch.
  destruct (findUnique (backupId options) (table w)) as [row|] eqn:Hrow.
  2:{ unfold restoreBackup, getBackupMetadata in E. unfold_M in E.
      rewrite Hrow in E. subst res. simpl. auto. }
  destruct (decide (row_status row = completed)) as [Hst|Hst].
  2:{ unfold restoreBackup, getBackupMetadata in E. unfold_M in E.
      rewrite Hrow in E. cbn [status] in E. rewrite decide_True in E by done.
      subst res. simpl. auto. }
  rewrite (restoreBackup_found r options w row) in E by done.
  cbv zeta in E. rewrite try_catch_rethrow, Hv in E.
  apply findUnique_Some in Hrow as [_ Hid].
  match type of E with
  | _ = performRestore r ?b ?t ?d w =>
      pose proof (performRestore_beside r b t d w) as Hb;
      pose proof (performRestore_scratch_removed r b t d w) as Hgone
  end.
  rewrite <- E in Hb, Hgone. cbn [id] in Hb, Hgone. rewrite Hid in Hb, Hgone.
  unfold beside in Hb. injection Hb as He Hf.
  set (scratch := restorePath (cwd w) (backupId options)) in *.
  assert (∀ p, p ≠ scratch → files (snd res) !! p = files w !! p) as Hout.
  { intros p Hp.
    rewrite <- (lookup_delete_ne (files (snd res)) scratch p) by done.
    rewrite Hf. by apply lookup_delete_ne. }
  split; [done|]. split; [done|].
  intros Hs. right. apply map_eq. intros q.
  destruct (decide (q = scratch)) as [->|Hq].
  - by rewrite (Hgone Hs), lookup_delete_eq.
  - rewrite lookup_delete_ne by done. by apply Hout.
Qed.
End RestoreScratch.

(** ** Create calls that fail, and the slot they hold *)

Lemma upsert_findUnique_failed (m : BackupMetadata) (savedAt : Date) (newId : string)
    (t : list Row) (msg : string) :
  error m = Some msg →
  ∃ r, findUnique (id m) (upsert m savedAt newId t) = Some r ∧
       row_status r = status m ∧ row_error r = Some msg.
Proof.
  intros Herr. unfold upsert. destruct (findUnique (id m) t) as [r0|] eqn:Hf.
  - exists (updateRow m savedAt r0). split; [|by cbn; rewrite Herr].
    unfold findUnique in *. induction t as [|r t IH]; [done|].
    simpl in *. case_decide as Hr.
    + rewrite bool_decide_eq_true_2 in Hf by done. injection Hf as ->.
      simpl. by rewrite bool_decide_eq_true_2.
    + rewrite bool_decide_eq_false_2 in Hf by done.
      rewrite bool_decide_eq_false_2 by done. by apply IH.
  - exists (createRow m savedAt newId). split; [|done].
    unfold findUnique in *. apply find_snoc; [done|].
    by apply bool_decide_eq_true_2.
Qed.

Section CreateFailures.
Context {P : Platform}.

Lemma performBackup_without_url (i : CreateInputs) (backupId : string)
    (ty : BackupType) (w : World) :
  or_else (env w !! "DATABASE_URL") None = None →
  performBackup i backupId ty w =
    (Rejected (Error "DATABASE_URL غير محدد"),
     setFiles (delete (sqlPath (cwd w) backupId) (files w)) w).
Proof.
  intros Hurl. unfold performBackup. unfold_M. rewrite Hurl.
  by rewrite removeIfExists_spec.
Qed.

Lemma performBackup_dump_failed (i : CreateInputs) (backupId : string)
    (ty : BackupType) (w : World) (databaseUrl : string) (url : URL)
    (msg : string) (partialOut : option bytes) :
  or_else (env w !! "DATABASE_URL") None = Some databaseUrl →
  parseURL databaseUrl = Some url →
  i_pg_dump i = DumpFailed msg partialOut →
  performBackup i backupId ty w =
    (Rejected (Error msg),
     setFiles (delete (sqlPath (cwd w) backupId) (files w))
       (logExec {| command := dumpCommand url (sqlPath (cwd w) backupId);
                   PGPASSWORD := password url |} w)).
Proof.
  intros Hurl Hparse Hdump. unfold performBackup, exec_pg_dump, writeFile.
  unfold_M. rewrite Hurl, Hparse, Hdump.
  destruct partialOut as [b|]; rewrite removeIfExists_spec; simpl_world;
    fold (sqlPath (cwd w) backupId); by rewrite ?delete_insert_eq.
Qed.

(** The [catch] block of [createManualBackup] and [createAutomaticBackup]. *)
Lemma create_catch (i : CreateInputs) (ty : BackupType) (w w1 : World) (msg : string) :
  let backupId := generateBackupId (i_isoNow i) (i_randomHex i) in
  let metadata := newMetadata backupId i ty in
  performBackup i backupId ty
    (setActiveBackups (<[backupId := metadata]> (activeBackups w)) w)
    = (Rejected (Error msg), w1) →
  files w1 = delete (sqlPath (cwd w) backupId) (files w) →
  activeBackups w1 = <[backupId := metadata]> (activeBackups w) →
  failed_run
    ((activate backupId metadata;;
      try_finally
        (try_catch
           (result ← performBackup i backupId ty;
            let metadata := markCompleted metadata result in
            saveBackupMetadata (i_savedAt i) (i_newRowId i) metadata;;
            mret metadata)
           (λ error,
            saveBackupMetadata (i_savedAt i) (i_newRowId i) (markFailed metadata error);;
            throw error))
        (deactivate backupId)) w)
    w i msg.
Proof.
  intros backupId metadata Hperf Hfiles Hactive.
  match goal with
  | |- failed_run ?run _ _ _ =>
      assert (run = (Rejected (Error msg),
                     setActiveBackups (delete backupId (activeBackups w1))
                       (setTable (upsert (markFailed metadata (Error msg))
                                    (i_savedAt i) (i_newRowId i) (table w1)) w1)))
        as ->
  end.
  { unfold activate, deactivate, saveBackupMetadata. unfold_M.
    by rewrite Hperf. }
  unfold failed_run. fold backupId. simpl_world.
  destruct (upsert_findUnique_failed (markFailed metadata (Error msg))
              (i_savedAt i) (i_newRowId i) (table w1) msg eq_refl)
    as (row & Hrow & Hst & Herr).
  exists row. rewrite Hfiles, Hactive. split_and!; try done.
  by rewrite delete_insert_eq.
Qed.

(** X14. With no [DATABASE_URL] (absent or empty), [createManualBackup]
    and [createAutomaticBackup] are rejected with that error, save the
    record as [failed] with the message, run no command, and give up their
    entry in [activeBackups]. *)
Theorem create_without_database_url_records_failure (i : CreateInputs)
    (reason : string) (w : World) :
  or_else (env w !! "DATABASE_URL") None = None →
  failed_run (createManualBackup i w) w i "DATABASE_URL غير محدد" ∧
  failed_run (createAutomaticBackup reason i w) w i "DATABASE_URL غير محدد" ∧
  execLog (snd (createManualBackup i w)) = execLog w ∧
  execLog (snd (createAutomaticBackup reason i w)) = execLog w.
Proof.
  intros Hurl. split_and!.
  - apply (create_catch i manual w _ _
             (performBackup_without_url i _ manual (setActiveBackups _ w) Hurl));
      done.
  - apply (create_catch i automatic w _ _
             (performBackup_without_url i _ automatic (setActiveBackups _ w) Hurl));
      done.
  - unfold createManualBackup, activate, deactivate. unfold_M.
    rewrite performBackup_without_url by done. done.
  - unfold createAutomaticBackup, activate, deactivate. unfold_M.
    rewrite performBackup_without_url by done. done.
Qed.

(** X15. When [pg_dump] fails, [createManualBackup] and
    [createAutomaticBackup] are rejected with the tool's message and save
    the record as [failed] with it; the partial dump, if any, is removed,
    the [pg_dump] call is the one command run, and the entry in
    [activeBackups] is given up. *)
Theorem create_with_failing_pg_dump_records_failure (i : CreateInputs)
    (reason : string) (w : World) (databaseUrl : string) (url : URL)
    (msg : string) (partialOut : option bytes) :
  or_else (env w !! "DATABASE_URL") None = Some databaseUrl →
  parseURL databaseUrl = Some url →
  i_pg_dump i = DumpFailed msg partialOut →
  let backupId := generateBackupId (i_isoNow i) (i_randomHex i) in
  let call := {| command := dumpCommand url (sqlPath (cwd w) backupId);
                 PGPASSWORD := password url |} in
  failed_run (createManualBackup i w) w i msg ∧
  failed_run (createAutomaticBackup reason i w) w i msg ∧
  execLog (snd (createManualBackup i w)) = (execLog w ++ [call])%list ∧
  execLog (snd (createAutomaticBackup reason i w)) = (execLog w ++ [call])%list.
Proof.
  intros Hurl Hparse Hdump backupId call.
  pose proof (λ ty w0 H1, performBackup_dump_failed i backupId ty w0 databaseUrl
                            url msg partialOut H1 Hparse Hdump) as Hperf.
  split_and!.
  - apply (create_catch i manual w _ _ (Hperf manual (setActiveBackups _ w) Hurl));
      done.
  - apply (create_catch i automatic w _ _
             (Hperf automatic (setActiveBackups _ w) Hurl)); done.
  - unfold createManualBackup, activate, deactivate. unfold_M.
    fold backupId. rewrite Hperf by done. done.
  - unfold createAutomaticBackup, activate, deactivate. unfold_M.
    fold backupId. rewrite Hperf by done. done.
Qed.
End CreateFailures.

Section CreateSettles.
Context {P : Platform}.

(** [performBackup] always settles: the file it encrypts is the one it
    has just measured and read. *)
Lemma performBackup_settles (i : CreateInputs) (backupId : string) (ty : BackupType)
    (w : World) :
  settled (fst (performBackup i backupId ty w)).
Proof.
  unfold performBackup, exec_pg_dump, writeFile, stat, readFile, encryptFile, remove.
  unfold_M.
  destruct (or_else (env w !! "DATABASE_URL") None) as [databaseUrl|];
    [|by rewrite removeIfExists_spec].
  destruct (parseURL databaseUrl) as [url|]; [|by rewrite removeIfExists_spec].
  destruct (i_pg_dump i) as [out|msg [b|]];
    repeat (progress (simpl_world; rewrite ?lookup_insert_eq, ?removeIfExists_spec));
    done.
Qed.

Lemma deleteBackup_settles (k : string) (w : World) :
  settled (fst (deleteBackup k w)).
Proof.
  unfold deleteBackup, getBackupMetadata. unfold_M.
  destruct (findUnique k (table w)); [|done].
  rewrite removeIfExists_spec. simpl_world.
  by destruct (deleteWhereId k (table w)).
Qed.

Lemma for_each_deleteBackup_settles (l : list Row) (w : World) :
  settled (fst (for_each l (λ backup, deleteBackup (row_id backup)) w)).
Proof.
  revert w. induction l as [|b l IH]; intros w; [done|].
  cbn [for_each]. unfold mbind, M_bind, bind.
  pose proof (deleteBackup_settles (row_id b) w) as Hs.
  destruct (deleteBackup (row_id b) w) as [[[]|e|] w1]; first [done | apply IH].
Qed.

Lemma cleanupOldBackups_fulfils (now : Date) (w : World) :
  fst (cleanupOldBackups now w) = Fulfilled tt.
Proof.
  unfold cleanupOldBackups. unfold try_catch.
  unfold mbind at 1. unfold M_bind, bind, get.
  destruct (parseInt _) as [days|]; [|done].
  unfold mbind, M_bind, bind.
  match goal with
  | |- context [for_each ?l ?f w] =>
      pose proof (for_each_deleteBackup_settles l w) as Hs;
      destruct (for_each l f w) as [[[]|e|] w1]
  end; done.
Qed.

(** X16. The nightly job never fails its caller: [createScheduledBackup]
    is fulfilled for every input, also when the backup itself fails, and
    afterwards its entry in [activeBackups] is gone. *)
Theorem createScheduledBackup_always_fulfils (i : CreateInputs) (w : World) :
  fst (createScheduledBackup i w) = Fulfilled tt ∧
  activeBackups (snd (createScheduledBackup i w))
    = delete (generateBackupId (i_isoNow i) (i_randomHex i)) (activeBackups w).
Proof.
  unfold createScheduledBackup. cbv zeta.
  rewrite create_shape.
  2:{ blind; auto using ignores_performBackup, ignores_saveBackupMetadata,
                        ignores_cleanupOldBackups. }
  match goal with
  | |- fst (fst (?body w), _) = _ ∧ _ =>
      assert (fst (body w) = Fulfilled tt) as Hbody
  end.
  { unfold try_catch. unfold mbind at 1. unfold M_bind, bind.
    pose proof (performBackup_settles i
                  (generateBackupId (i_isoNow i) (i_randomHex i)) scheduled w) as Hs.
    destruct (performBackup _ _ _ w) as [[result|e|] w1]; try done.
    unfold saveBackupMetadata. unfold_M.
    match goal with
    | |- context [cleanupOldBackups ?n ?w2] =>
        pose proof (cleanupOldBackups_fulfils n w2) as Hc;
        destruct (cleanupOldBackups n w2) as [[[]|e|] w3]
    end; done. }
  cbn [fst snd]. rewrite Hbody. by simpl_world.
Qed.

(** X17. No create call keeps its slot: [createManualBackup] and
    [createAutomaticBackup] always settle, fulfilled or rejected, and
    afterwards [activeBackups] is what it was before the call without the
    new id. *)
Theorem create_always_releases_its_entry (i : CreateInputs) (reason : string)
    (w : World) :
  let backupId := generateBackupId (i_isoNow i) (i_randomHex i) in
  settled (fst (createManualBackup i w)) ∧
  activeBackups (snd (createManualBackup i w)) = delete backupId (activeBackups w) ∧
  settled (fst (createAutomaticBackup reason i w)) ∧
  activeBackups (snd (createAutomaticBackup reason i w))
    = delete backupId (activeBackups w).
Proof.
  intros backupId.
  assert (∀ ty handler,
            (∀ e w0, settled (fst (handler e w0))) →
            settled (fst (try_catch
              (result ← performBackup i backupId ty;
               let metadata := markCompleted (newMetadata backupId i ty) result in
               saveBackupMetadata (i_savedAt i) (i_newRowId i) metadata;;
               mret metadata) handler w))) as Hbody.
  { intros ty handler Hh. unfold try_catch. unfold mbind at 1. unfold M_bind, bind.
    pose proof (performBackup_settles i backupId ty w) as Hs.
    destruct (performBackup _ _ _ w) as [[result|e|] w1]; first [done | apply Hh]. }
  unfold createManualBackup, createAutomaticBackup. cbv zeta. fold backupId.
  rewrite !create_shape
    by (blind; auto using ignores_performBackup, ignores_saveBackupMetadata).
  cbn [fst snd]. simpl_world.
  split_and!.
  - by apply Hbody.
  - match goal with
    | |- context [match fst (?body w) with _ => _ end] =>
        assert (settled (fst (body w))) as Hs by (by apply Hbody);
        by destruct (fst (body w))
    end.
  - by apply Hbody.
  - match goal with
    | |- context [match fst (?body w) with _ => _ end] =>
        assert (settled (fst (body w))) as Hs by (by apply Hbody);
        by destruct (fst (body w))
    end.
Qed.
End CreateSettles.

(** ** A created backup handed back to restore *)

Section CreateThenRestore.
Context {P : Platform}.

(** Restoring or verifying a completed record whose [path] names no file:
    the read stream's ['error'] rejects the promise with [ENOENT] before
    anything else is looked at. *)
Lemma restoreBackup_missing_artifact (r : ExecResult) (options : RestoreOptions)
    (w : World) (row : Row) :
  findUnique (backupId options) (table w) = Some row →
  row_status row = completed →
  files w !! row_path row = None →
  fst (restoreBackup r options w)
    = Rejected (Error ("ENOENT: no such file or directory, open " +:+ row_path row)) ∧
  execLog (snd (restoreBackup r options w)) = execLog w ∧
  table (snd (restoreBackup r options w)) = table w.
Proof.
  intros Hrow Hst Hfile.
  assert (∃ tempPath,
            restoreBackup r options w
            = (Rejected (Error ("ENOENT: no such file or directory, open "
                                +:+ row_path row)),
               setFiles (delete tempPath (<[tempPath := []]> (files w))) w))
    as [tempPath ->].
  { rewrite (restoreBackup_found r options w row Hrow Hst). cbv zeta.
    rewrite try_catch_rethrow.
    destruct (default false (verifyOnly options)); eexists.
    - unfold verifyBackup. unfold_M. unfold try_finally, decryptFile.
      cbn [path id]. rewrite Hfile. rewrite removeIfExists_spec.
      simpl_world. reflexivity.
    - unfold performRestore. unfold_M. unfold try_finally, decryptFile.
      cbn [path id]. rewrite Hfile. rewrite removeIfExists_spec.
      simpl_world. reflexivity. }
  done.
Qed.

(** X18. A backup the service has just created cannot be restored or
    verified by it: after a successful [createManualBackup] in a world
    with no file at [<backupId>.enc], [restoreBackup] of the new id is
    rejected with [ENOENT] on the recorded path, whatever its options, and
    runs no command. *)
Theorem created_backup_is_not_restorable (i : CreateInputs) (w : World)
    (databaseUrl : string) (url : URL) (out : bytes)
    (r : ExecResult) (options : RestoreOptions) :
  or_else (env w !! "DATABASE_URL") None = Some databaseUrl →
  parseURL databaseUrl = Some url →
  i_pg_dump i = DumpOk out →
  files w !! encPath (cwd w) (generateBackupId (i_isoNow i) (i_randomHex i)) = None →
  backupId options = generateBackupId (i_isoNow i) (i_randomHex i) →
  let w' := snd (createManualBackup i w) in
  fst (restoreBackup r options w')
    = Rejected (Error ("ENOENT: no such file or directory, open "
                       +:+ encPath (cwd w) (backupId options))) ∧
  execLog (snd (restoreBackup r options w')) = execLog w'.
Proof.
  intros Hurl Hparse Hdump Hfresh Hid w'. subst w'.
  rewrite (createManualBackup_success i w databaseUrl url out) by done.
  cbn [snd].
  destruct (completedWorld_row i manual w url out) as (row & Hf & Hst & _ & _ & Hp).
  destruct (completedWorld_files i manual w url out) as (_ & _ & He).
  cbv zeta in He. rewrite Hfresh in He.
  rewrite <- Hid in Hf, Hp, He. rewrite <- Hp in He.
  destruct (restoreBackup_missing_artifact r options _ row Hf Hst He) as (-> & -> & _).
  by rewrite Hp.
Qed.
End CreateThenRestore.

(** ** The record store *)

Lemma findUnique_map_other (k : string) (f : Row → Row) (t : list Row) :
  (∀ r, row_backupId (f r) = row_backupId r) →
  (∀ r, row_backupId r = k → f r = r) →
  findUnique k (map f t) = findUnique k t.
Proof.
  intros Hkey Hsame. unfold findUnique.
  induction t as [|r t IH]; [done|]. cbn [map find]. rewrite Hkey.
  case_bool_decide as Hr; [by rewrite Hsame|done].
Qed.

Lemma findUnique_app_other (k : string) (t : list Row) (r : Row) :
  row_backupId r ≠ k →
  findUnique k (t ++ [r]) = findUnique k t.
Proof.
  intros Hne. unfold findUnique. induction t as [|r0 t IH].
  - cbn. by rewrite bool_decide_eq_false_2.
  - cbn [app find]. by destruct (bool_decide (row_backupId r0 = k)).
Qed.

Lemma upsert_findUnique_update (m : BackupMetadata) (savedAt : Date) (newId : string)
    (t : list Row) (old : Row) :
  findUnique (id m) t = Some old →
  findUnique (id m) (upsert m savedAt newId t) = Some (updateRow m savedAt old).
Proof.
  intros Hf. unfold upsert. rewrite Hf.
  unfold findUnique in *. induction t as [|r t IH]; [done|].
  simpl in *. case_decide as Hr.
  - rewrite bool_decide_eq_true_2 in Hf by done. injection Hf as ->.
    simpl. by rewrite bool_decide_eq_true_2.
  - rewrite bool_decide_eq_false_2 in Hf by done.
    rewrite bool_decide_eq_false_2 by done. by apply IH.
Qed.

Lemma upsert_findUnique_create (m : BackupMetadata) (savedAt : Date) (newId : string)
    (t : list Row) :
  findUnique (id m) t = None →
  findUnique (id m) (upsert m savedAt newId t) = Some (createRow m savedAt newId).
Proof.
  intros Hf. unfold upsert. rewrite Hf.
  unfold findUnique in *. apply find_snoc; [done|]. by apply bool_decide_eq_true_2.
Qed.

(** X19. Saving a record and reading it back.  Under a new id the record
    comes back as saved (an empty [error] as none).  Under an id that is
    already stored, [timestamp], [type] and [encrypted] come back as they
    were stored before, and an absent [error] does not clear the stored
    one. *)
Theorem save_then_get_metadata (savedAt : Date) (newId : string)
    (m : BackupMetadata) (w : World) :
  fst ((saveBackupMetadata savedAt newId m;; getBackupMetadata (id m)) w)
  = Fulfilled (Some
      match findUnique (id m) (table w) with
      | None =>
          {| id := id m; timestamp := timestamp m; type := type m;
             status := status m; size := size m; checksum := checksum m;
             encrypted := encrypted m; duration := duration m;
             error := or_else (error m) None; path := path m |}
      | Some old =>
          {| id := id m; timestamp := row_timestamp old; type := row_type old;
             status := status m; size := size m; checksum := checksum m;
             encrypted := row_encrypted old; duration := duration m;
             error := or_else (match error m with
                               | Some e => Some e
                               | None => row_error old
                               end) None;
             path := path m |}
      end).
Proof.
  unfold saveBackupMetadata, getBackupMetadata. unfold_M. simpl_world.
  destruct (findUnique (id m) (table w)) as [old|] eqn:Hf.
  - rewrite (upsert_findUnique_update m savedAt newId _ old Hf).
    apply findUnique_Some in Hf as [_ Hk]. cbn. by rewrite Hk.
  - by rewrite (upsert_findUnique_create m savedAt newId _ Hf).
Qed.

(** X20. Saving a record changes no other: a lookup under any other
    backup id reads what it read before, and the number of stored rows
    grows by one exactly when the id was not stored yet. *)
Theorem save_leaves_other_records (savedAt : Date) (newId k : string)
    (m : BackupMetadata) (w : World) :
  k ≠ id m →
  let w' := snd (saveBackupMetadata savedAt newId m w) in
  getBackupMetadata k w' = (fst (getBackupMetadata k w), w') ∧
  length (table w')
    = (length (table w)
       + match findUnique (id m) (table w) with Some _ => 0 | None => 1 end)%nat.
Proof.
  intros Hk w'. subst w'.
  unfold saveBackupMetadata, getBackupMetadata, modify, get. cbn [fst snd].
  simpl_world. unfold upsert.
  destruct (findUnique (id m) (table w)) as [old|] eqn:Hf.
  - rewrite findUnique_map_other.
    + split; [done|]. rewrite length_map. lia.
    + intros r. by case_decide.
    + intros r Hr. rewrite decide_False; [done|congruence].
  - rewrite findUnique_app_other.
    + split; [done|]. rewrite length_app. cbn. lia.
    + cbn. congruence.
Qed.

(** ** Deleting and retention *)

Lemma deleteWhereId_Some (k : string) (t : list Row) (r : Row) :
  r ∈ t → row_id r = k →
  deleteWhereId k t = Some (filter (λ r, row_id r ≠ k) t).
Proof.
  intros Hin Hk. unfold deleteWhereId.
  assert (existsb (λ r, bool_decide (row_id r = k)) t = true) as ->; [|done].
  apply existsb_exists. exists r. split; [by apply list_elem_of_In|].
  by apply bool_decide_eq_true_2.
Qed.

(** X21. [deleteBackup] of a record that is stored under its backup id
    as primary key: the call is fulfilled, the file at the record's path
    and the record are gone, and the rows with another primary key are
    all still there. *)
Theorem deleteBackup_removes_file_and_record (k : string) (w : World) (row : Row) :
  findUnique k (table w) = Some row →
  row_id row = k →
  let w' := snd (deleteBackup k w) in
  fst (deleteBackup k w) = Fulfilled tt ∧
  files w' = delete (row_path row) (files w) ∧
  (row ∉ table w') ∧
  (∀ r, r ∈ table w → row_id r ≠ k → r ∈ table w') ∧
  (∀ r, r ∈ table w' → r ∈ table w).
Proof.
  intros Hrow Hk w'. subst w'.
  assert (deleteBackup k w
          = (Fulfilled tt,
             setTable (filter (λ r, row_id r ≠ k) (table w))
               (setFiles (delete (row_path row) (files w)) w))) as ->.
  { unfold deleteBackup, getBackupMetadata. unfold_M. rewrite Hrow.
    cbn [path]. rewrite removeIfExists_spec. simpl_world.
    apply findUnique_Some in Hrow as [Hin _].
    by rewrite (deleteWhereId_Some k (table w) row Hin Hk). }
  simpl_world. split_and!; try done.
  - rewrite list_elem_of_filter. tauto.
  - intros r Hr Hne. by apply list_elem_of_filter.
  - intros r Hr. by apply list_elem_of_filter in Hr as [_ ?].
Qed.

(** What one [deleteBackup] does to the table: nothing, or it removes the
    rows with the given primary key. *)
Lemma deleteBackup_table (k : string) (w : World) :
  table (snd (deleteBackup k w)) = table w ∨
  table (snd (deleteBackup k w)) = filter (λ r, row_id r ≠ k) (table w).
Proof.
  unfold deleteBackup, getBackupMetadata. unfold_M.
  destruct (findUnique k (table w)); [|by left].
  rewrite removeIfExists_spec. simpl_world.
  destruct (deleteWhereId k (table w)) as [t'|] eqn:Hd; [|by left].
  right. unfold deleteWhereId in Hd. destruct (existsb _ _); [|done].
  by injection Hd as <-.
Qed.

Lemma for_each_deleteBackup_table (l : list Row) (w : World) :
  let w' := snd (for_each l (λ backup, deleteBackup (row_id backup)) w) in
  table w' `sublist_of` table w ∧
  ∀ r, r ∈ table w → r ∈ table w' ∨ ∃ b, b ∈ l ∧ row_id b = row_id r.
Proof.
  revert w. induction l as [|b l IH]; intros w; cbn zeta.
  { split; [done|]. intros r Hr. by left. }
  cbn [for_each]. unfold mbind, M_bind, bind.
  pose proof (deleteBackup_table (row_id b) w) as Ht.
  assert (table (snd (deleteBackup (row_id b) w)) `sublist_of` table w ∧
          ∀ r, r ∈ table w →
               r ∈ table (snd (deleteBackup (row_id b) w)) ∨ row_id b = row_id r)
    as [Hsub Hkeep].
  { destruct Ht as [-> | ->].
    - split; [done|]. intros r Hr. by left.
    - split; [apply sublist_filter|]. intros r Hr.
      destruct (decide (row_id r = row_id b)) as [He|Hne]; [by right|].
      left. by apply list_elem_of_filter. }
  destruct (deleteBackup (row_id b) w) as [[[]|e|] w1]; cbn [fst snd] in *.
  - destruct (IH w1) as [Hsub1 Hkeep1]. split; [by etrans|].
    intros r Hr. destruct (Hkeep r Hr) as [Hr1 | He].
    + destruct (Hkeep1 r Hr1) as [? | (b' & Hb' & He)]; [by left|].
      right. exists b'. split; [by right|done].
    + right. exists b. split; [by left|done].
  - split; [done|]. intros r Hr. destruct (Hkeep r Hr) as [? | He]; [by left|].
    right. exists b. split; [by left|done].
  - split; [done|]. intros r Hr. destruct (Hkeep r Hr) as [? | He]; [by left|].
    right. exists b. split; [by left|done].
Qed.

Section RetentionSafety.
Context {P : Platform}.

Lemma cleanupOldBackups_world (now : Date) (w : World) :
  snd (cleanupOldBackups now w)
  = match parseInt (or_default (env w !! "BACKUP_RETENTION_DAYS") "30") with
    | None => w
    | Some days =>
        snd (for_each (findManyOld (minusDays now days) (table w))
               (λ backup, deleteBackup (row_id backup)) w)
    end.
Proof.
  unfold cleanupOldBackups. unfold try_catch.
  unfold mbind at 1. unfold M_bind, bind, get.
  destruct (parseInt _) as [days|]; [|done].
  unfold mbind, M_bind, bind.
  by destruct (for_each _ _ w) as [[[]|e|] w1].
Qed.

(** X22. What retention can remove.  [cleanupOldBackups] is always
    fulfilled; it adds no row and reorders none; a row that is gone
    afterwards has the primary key of a completed row older than the
    cutoff; and the environment, the active backups and the command log
    are as before. *)
Theorem cleanup_removes_only_expired_keys (now : Date) (w : World) :
  let w' := snd (cleanupOldBackups now w) in
  fst (cleanupOldBackups now w) = Fulfilled tt ∧
  table w' `sublist_of` table w ∧
  (∀ r, r ∈ table w → r ∉ table w' →
        ∃ days b,
          parseInt (or_default (env w !! "BACKUP_RETENTION_DAYS") "30") = Some days ∧
          b ∈ table w ∧ row_status b = completed ∧
          row_timestamp b < minusDays now days ∧ row_id b = row_id r) ∧
  (env w', cwd w', activeBackups w', execLog w')
    = (env w, cwd w, activeBackups w, execLog w).
Proof.
  intros w'. split; [apply cleanupOldBackups_fulfils|].
  assert (preserves (λ w, (env w, cwd w, activeBackups w, execLog w))
            (cleanupOldBackups now)) as Hkeep.
  { unfold cleanupOldBackups. frame. }
  split_and!; [| |apply Hkeep]; subst w'; rewrite cleanupOldBackups_world;
    destruct (parseInt _) as [days|] eqn:Hdays; try done.
  - apply for_each_deleteBackup_table.
  - intros r Hr Hgone.
    destruct (for_each_deleteBackup_table
                (findManyOld (minusDays now days) (table w)) w) as [_ Hk].
    destruct (Hk r Hr) as [? | (b & Hb & He)]; [done|].
    unfold findManyOld in Hb. apply list_elem_of_filter in Hb as [[Hts Hst] Hin].
    by exists days, b.
Qed.
End RetentionSafety.

(** ** What a completed record says about the dump *)

(** After the upsert every row of the metadata's id carries its status,
    size and checksum. *)
Lemma upsert_rows_of_id (m : BackupMetadata) (savedAt : Date) (newId : string)
    (t : list Row) (r : Row) :
  r ∈ upsert m savedAt newId t → row_backupId r = id m →
  row_status r = status m ∧ row_size r = size m ∧ row_checksum r = checksum m.
Proof.
  unfold upsert. destruct (findUnique (id m) t) as [r0|] eqn:Hf; intros Hin Hid.
  - apply list_elem_of_In, in_map_iff in Hin as (r1 & <- & _).
    case_decide as Hr1; [by cbn|by destruct Hr1].
  - apply elem_of_app in Hin as [Hin | Hin].
    + unfold findUnique in Hf. apply list_elem_of_In in Hin.
      pose proof (find_none _ _ Hf r Hin) as Hn. cbn beta in Hn.
      by rewrite bool_decide_eq_true_2 in Hn.
    + by apply list_elem_of_singleton in Hin as ->.
Qed.

Section CompletedSizes.
Context {P : Platform}.

Lemma cleanupOldBackups_sublist (now : Date) (w : World) :
  table (snd (cleanupOldBackups now w)) `sublist_of` table w.
Proof.
  rewrite cleanupOldBackups_world. destruct (parseInt _); [|done].
  apply for_each_deleteBackup_table.
Qed.

(** A successful scheduled run is a completed run followed by the
    retention. *)
Lemma createScheduledBackup_success (i : CreateInputs) (w : World)
    (databaseUrl : string) (url : URL) (out : bytes) :
  or_else (env w !! "DATABASE_URL") None = Some databaseUrl →
  parseURL databaseUrl = Some url →
  i_pg_dump i = DumpOk out →
  createScheduledBackup i w
    = (Fulfilled tt,
       snd (cleanupOldBackups (i_cleanupNow i) (completedWorld i scheduled w url out))).
Proof.
  intros Hurl Hparse Hdump.
  unfold createScheduledBackup. cbv zeta.
  rewrite create_shape
    by (blind; auto using ignores_performBackup, ignores_saveBackupMetadata,
                          ignores_cleanupOldBackups).
  match goal with
  | |- (fst (?body w), _) = _ =>
      assert (body w
              = (Fulfilled tt,
                 snd (cleanupOldBackups (i_cleanupNow i)
                        (setActiveBackups (activeBackups w)
                           (completedWorld i scheduled w url out))))) as ->
  end.
  { unfold try_catch. unfold mbind at 1. unfold M_bind, bind.
    rewrite (performBackup_success i _ scheduled w databaseUrl url out) by done.
    unfold saveBackupMetadata. unfold mbind, M_bind, bind, modify.
    match goal with
    | |- context [cleanupOldBackups ?n ?w2] =>
        rewrite (surjective_pairing (cleanupOldBackups n w2)),
                (cleanupOldBackups_fulfils n w2)
    end.
    reflexivity. }
  cbn [fst snd]. f_equal.
  pose proof (ignores_cleanupOldBackups (i_cleanupNow i)
                (setActiveBackups (activeBackups w)
                   (completedWorld i scheduled w url out))
                (delete (generateBackupId (i_isoNow i) (i_randomHex i))
                        (activeBackups w))) as Hig.
  apply (f_equal snd) in Hig. cbn [snd] in Hig. by rewrite <- Hig.
Qed.

Context {L : PlatformLaws P}.

(** C7. Every backup that reaches [completed], through
    [createManualBackup], [createScheduledBackup] or
    [createAutomaticBackup], is persisted with what [performBackup] took
    from the plain dump before encrypting it: the record's [size] is the
    byte length of the unencrypted dump and its [checksum] the SHA-256 hex
    digest of the unencrypted dump.  The encrypted file holds the IV
    followed by the ciphertext and is longer than the recorded size. *)
Theorem C7_size_and_checksum_of_plain_dump (i : CreateInputs) (reason : string)
    (w : World) (databaseUrl : string) (url : URL) (out : bytes) :
  or_else (env w !! "DATABASE_URL") None = Some databaseUrl →
  parseURL databaseUrl = Some url →
  i_pg_dump i = DumpOk out →
  persists_plain_dump (createManualBackup i w) w i out ∧
  persists_plain_dump (createAutomaticBackup reason i w) w i out ∧
  scheduled_persists_plain_dump (createScheduledBackup i w) w i out.
Proof.
  intros Hurl Hparse Hdump.
  assert (Z.of_nat (length out)
          < Z.of_nat (length (i_iv i ++ aes_256_cbc_encrypt (encryptionKey w)
                                            (i_iv i) out))) as Hlonger.
  { rewrite length_app, aes_256_cbc_encrypt_length.
    pose proof (Nat.div_mod_eq (length out) 16).
    pose proof (Nat.mod_upper_bound (length out) 16).
    lia. }
  assert (∀ ty, persists_plain_dump
                  (Fulfilled (completedMetadata i ty w out),
                   completedWorld i ty w url out) w i out) as H.
  { intros ty.
    destruct (completedWorld_row i ty w url out) as (row & Hf & Hst & Hsz & Hck & _).
    destruct (completedWorld_files i ty w url out) as (Hw & _ & _).
    exists (completedMetadata i ty w out), row.
    split_and!;
      first [done | cbn [completedMetadata markCompleted size res_size]; exact Hlonger]. }
  rewrite (createManualBackup_success i w databaseUrl url out) by done.
  rewrite (createAutomaticBackup_success reason i w databaseUrl url out) by done.
  rewrite (createScheduledBackup_success i w databaseUrl url out) by done.
  split_and!; [apply H..|].
  destruct (completedWorld_row i scheduled w url out)
    as (row & Hf & Hst & Hsz & Hck & _).
  destruct (completedWorld_files i scheduled w url out) as (Hw & _ & _).
  exists (completedWorld i scheduled w url out), row. cbn [fst snd].
  split_and!; try done.
  - rewrite Hsz. exact Hlonger.
  - intros row' Hin Hid.
    pose proof (elem_of_sublist _ _ _ Hin
                  (cleanupOldBackups_sublist (i_cleanupNow i)
                     (completedWorld i scheduled w url out))) as Hin1.
    by apply (upsert_rows_of_id (completedMetadata i scheduled w out)
                (i_savedAt i) (i_newRowId i) (table w) row' Hin1).
Qed.
End CompletedSizes.

(** ** The controller's keys *)

Section ControllerKeys.
Context {P : Platform}.

(** X23. The key [GET /backup/:backupId] answers to is not the key the
    other routes take.  When no primary key of the table is also some
    record's [backupId], a parameter for which [getBackup] returns a
    record is unknown to [restoreBackup] and to [deleteBackup]: both are
    rejected with [NotFoundException] and change nothing. *)
Theorem key_of_getBackup_is_unknown_elsewhere (k : string) (r : ExecResult)
    (dto : RestoreBackupDto) (b : BackupMetadataResponse) (w : World) :
  (∀ r1 r2, r1 ∈ table w → r2 ∈ table w → row_id r1 ≠ row_backupId r2) →
  fst (BackupController.getBackup k w) = Fulfilled (Some b) →
  dto_backupId dto = k →
  BackupController.restoreBackup r dto w
    = (Rejected (NotFoundException ("النسخة الاحتياطية غير موجودة: " +:+ k)), w) ∧
  BackupController.deleteBackup k w
    = (Rejected (NotFoundException ("النسخة الاحتياطية غير موجودة: " +:+ k)), w).
Proof.
  intros Hkeys Hb Hdto.
  unfold BackupController.getBackup, getBackupList in Hb. unfold_M in Hb.
  cbn [fst] in Hb. injection Hb as Hb. apply find_some in Hb as [Hin Hk]. apply bool_decide_eq_true in Hk.
  apply in_map_iff in Hin as (row & <- & Hrow).
  apply list_elem_of_In, findManyNewest_subset in Hrow. cbn in Hk.
  assert (findUnique k (table w) = None) as Hnone.
  { destruct (findUnique k (table w)) as [r2|] eqn:Hr2; [|done].
    apply findUnique_Some in Hr2 as [Hin2 Hk2].
    destruct (Hkeys row r2 Hrow Hin2). congruence. }
  split.
  - unfold BackupController.restoreBackup. cbv zeta.
    rewrite restoreBackup_unknown; cbn [backupId]; by rewrite Hdto.
  - unfold BackupController.deleteBackup. by apply deleteBackup_unknown.
Qed.

(** X24. With primary keys given by the database (none of them is also a
    record's [backupId]) no [DELETE /backup/:backupId] succeeds, whatever
    the parameter: the call is rejected and the table is as before. *)
Theorem delete_is_always_rejected_under_database_keys (k : string) (w : World) :
  (∀ r1 r2, r1 ∈ table w → r2 ∈ table w → row_id r1 ≠ row_backupId r2) →
  (∃ e, fst (BackupController.deleteBackup k w) = Rejected e) ∧
  table (snd (BackupController.deleteBackup k w)) = table w.
Proof.
  intros Hkeys. unfold BackupController.deleteBackup.
  destruct (findUnique k (table w)) as [row|] eqn:Hrow.
  - assert (deleteBackup k w
            = (Rejected (Error "Record to delete does not exist."),
               setFiles (delete (row_path row) (files w)) w)) as ->.
    { unfold deleteBackup, getBackupMetadata. unfold_M. rewrite Hrow.
      cbn [path]. rewrite removeIfExists_spec. simpl_world.
      rewrite deleteWhereId_None; [done|].
      apply findUnique_Some in Hrow as [Hin Hk].
      intros r' Hr' He. destruct (Hkeys r' row Hr' Hin). congruence. }
    split; [by eexists|done].
  - rewrite deleteBackup_unknown by done. split; [by eexists|done].
Qed.
End ControllerKeys.

(** ** Where the artifact is written *)

Lemma prefix_enc_append (s : string) :
  String.prefix ".enc" s = false → String.prefix ".enc" (s +:+ ".enc") = false ∨ s = "".
Proof.
  intros H.
  destruct s as [|c0 [|c1 [|c2 [|c3 s]]]]; [by right|left..];
    cbv [String.append String.prefix] in *;
    repeat match goal with
           | |- context [Ascii.ascii_dec ?a ?b] =>
               destruct (Ascii.ascii_dec a b) as [<-|]; try done
           | H : context [Ascii.ascii_dec ?a ?b] |- _ =>
               destruct (Ascii.ascii_dec a b) as [<-|]; try done
           end.
  by destruct s.
Qed.

Lemma string_replace_enc_suffix (s : string) :
  occurs ".enc" s = false → string_replace ".enc" "" (s +:+ ".enc") = s.
Proof.
  induction s as [|c s IH]; intros Hocc; [done|].
  cbn [occurs] in Hocc. apply orb_false_iff in Hocc as [Hp Hocc].
  destruct (prefix_enc_append _ Hp) as [Hq|]; [|done].
  change (String c s +:+ ".enc") with (String c (s +:+ ".enc")) in *.
  cbn [string_replace]. rewrite Hq. by rewrite IH.
Qed.

Section Artifact.
Context {P : Platform}.

(** X25. Where a successful [createManualBackup] leaves the encrypted
    backup: when [".enc"] does not occur in [<cwd>/backups/<backupId>],
    the file with the IV and the ciphertext is [<cwd>/backups/<backupId>]
    itself, without extension, while the saved record names
    [<cwd>/backups/<backupId>.enc]. *)
Theorem created_artifact_has_no_extension (i : CreateInputs) (w : World)
    (databaseUrl : string) (url : URL) (out : bytes) :
  let backupId := generateBackupId (i_isoNow i) (i_randomHex i) in
  or_else (env w !! "DATABASE_URL") None = Some databaseUrl →
  parseURL databaseUrl = Some url →
  i_pg_dump i = DumpOk out →
  occurs ".enc" (cwd w +:+ "/backups/" +:+ backupId) = false →
  files (snd (createManualBackup i w)) !! (cwd w +:+ "/backups/" +:+ backupId)
    = Some (i_iv i ++ aes_256_cbc_encrypt (encryptionKey w) (i_iv i) out)%list ∧
  ∃ metadata,
    fst (getBackupMetadata backupId (snd (createManualBackup i w)))
      = Fulfilled (Some metadata) ∧
    path metadata = (cwd w +:+ "/backups/" +:+ backupId) +:+ ".enc".
Proof.
  intros backupId Hurl Hparse Hdump Hocc.
  rewrite (createManualBackup_success i w databaseUrl url out) by done.
  cbn [snd].
  destruct (completedWorld_row i manual w url out) as (row & Hf & _ & _ & _ & Hp).
  destruct (completedWorld_files i manual w url out) as (Hw & _ & _).
  fold backupId in Hf, Hp, Hw. cbv zeta in Hw.
  unfold writtenPath in Hw. rewrite encPath_ends_enc in Hw, Hp.
  rewrite string_replace_enc_suffix in Hw by done.
  split; [done|].
  unfold getBackupMetadata, get. cbn [fst]. rewrite Hf.
  eexists. split; [reflexivity|]. by cbn [path].
Qed.
End Artifact.


(** ** Evaluation on the sample worlds

    The theorems above applied on the stand-in platform, and the runs in
    which the code departs from the wording of the specification. *)

Section Evaluation.
#[local] Existing Instance Sim.platform.

Lemma C1_create_runs_beside_active_backup_witness :
  not_exclusive (createManualBackup sample_inputs) busy_world
                (id running_backup) running_backup ∧
  not_exclusive (createScheduledBackup sample_inputs) busy_world
                (id running_backup) running_backup ∧
  not_exclusive (createAutomaticBackup "bulk import" sample_inputs) busy_world
                (id running_backup) running_backup.
Proof.
  apply (C1_create_runs_beside_active_backup sample_inputs "bulk import" busy_world).
  - reflexivity.
  - intros H. vm_compute in H. discriminate H.
Defined.

(** Counterexample to C1 as the specification words it: with a scheduled
    backup registered in [activeBackups], [createManualBackup] is fulfilled
    with a completed record and has run its own [pg_dump]. *)
Lemma C1_counterexample :
  activeBackups busy_world !! id running_backup = Some running_backup ∧
  fst (createManualBackup sample_inputs busy_world) = Fulfilled sample_completed ∧
  status sample_completed = completed ∧
  execLog (snd (createManualBackup sample_inputs busy_world))
    = [{| command :=
            dumpCommand sample_url
              "/app/backups/backup_2024-11-12T12-34-56-789Z_a1b2c3d4.sql";
          PGPASSWORD := "secret" |}].
Proof. split_and!; vm_compute; reflexivity. Qed.

Lemma C2_decrypt_of_encrypt_never_settles_witness :
  ∃ w1 w2,
    encryptFile sample_iv "/app/temp/empty.json" "/app/temp/empty_encrypted" codec_world
      = (Fulfilled "/app/temp/empty_encrypted", w1) ∧
    files w1 !! "/app/temp/empty_encrypted"
      = Some (sample_iv ++ aes_256_cbc_encrypt (encryptionKey codec_world) sample_iv [])%list ∧
    decryptFile "/app/temp/empty_encrypted" "/app/temp/empty_decrypted.json" w1
      = (NeverSettles, w2) ∧
    files w2 !! "/app/temp/empty_decrypted.json" = Some [].
Proof.
  apply (C2_decrypt_of_encrypt_never_settles (L:=sim_laws) codec_world sample_iv []);
    reflexivity.
Defined.

Lemma C3_missing_key_falls_back_to_default_witness :
  let w := keyless_world in
  let w' := setEnv (<["BACKUP_ENCRYPTION_KEY" := "default-key"]> (env w)) w in
  let i := "/app/temp/test.json" in
  let o := "/app/temp/test_encrypted" in
  encryptionKey w = scryptSync "default-key" "salt" 32 ∧
  fst (encryptFile sample_iv i o w) = fst (encryptFile sample_iv i o w') ∧
  files (snd (encryptFile sample_iv i o w)) = files (snd (encryptFile sample_iv i o w')) ∧
  fst (decryptFile i o w) = fst (decryptFile i o w') ∧
  files (snd (decryptFile i o w)) = files (snd (decryptFile i o w')).
Proof.
  apply (C3_missing_key_falls_back_to_default keyless_world sample_iv
           "/app/temp/test.json" "/app/temp/test_encrypted").
  reflexivity.
Defined.

(** Counterexample to C3 as the specification words it: with no
    [BACKUP_ENCRYPTION_KEY], [encryptFile] is fulfilled and has encrypted
    under the key derived from ["default-key"], and [decryptFile] is
    fulfilled as well. *)
Lemma C3_counterexample :
  env keyless_world !! "BACKUP_ENCRYPTION_KEY" = None ∧
  encryptFile sample_iv "/app/temp/test.json" "/app/temp/test_encrypted" keyless_world
    = (Fulfilled "/app/temp/test_encrypted",
       setFiles
         (<["/app/temp/test_encrypted" :=
              (sample_iv ++ aes_256_cbc_encrypt (scryptSync "default-key" "salt" 32)
                              sample_iv [x7b; x7d])%list]>
            (files keyless_world))
         keyless_world) ∧
  fst (decryptFile "/app/temp/large.enc" "/app/temp/large.sql"
         (setFiles {[ "/app/temp/large.enc" := large_artifact ]} keyless_world))
    = Fulfilled "/app/temp/large.sql".
Proof. split_and!; vm_compute; reflexivity. Qed.

Lemma C4_restore_makes_no_safety_backup_witness :
  let res := restoreBackup ExecOk destructive_options restore_world in
  table (snd res) = table restore_world ∧
  activeBackups (snd res) = activeBackups restore_world ∧
  (execLog (snd res) = execLog restore_world ∨
   ∃ url,
     execLog (snd res) = (execLog restore_world ++
       [{| command := restoreCommand url true (restorePath (cwd restore_world) sample_id);
           PGPASSWORD := password url |}])%list).
Proof.
  apply (C4_restore_makes_no_safety_backup ExecOk destructive_options restore_world
           orphan_row); reflexivity.
Defined.

(** Counterexample to C4 as the specification words it: the destructive
    restore of a completed backup is fulfilled, [pg_restore --clean --if-
    exists] has run, and the table holds the one manual record it held
    before; nothing of type [automatic] was created and no [pg_dump] ran. *)
Lemma C4_counterexample :
  table restore_world = [orphan_row] ∧
  row_status orphan_row = completed ∧ row_type orphan_row = manual ∧
  fst (restoreBackup ExecOk destructive_options restore_world) = Fulfilled tt ∧
  table (snd (restoreBackup ExecOk destructive_options restore_world)) = [orphan_row] ∧
  execLog (snd (restoreBackup ExecOk destructive_options restore_world))
    = [{| command :=
            restoreCommand sample_url true
              "/app/temp/restore_backup_2024-11-12T12-34-56-789Z_a1b2c3d4.sql";
          PGPASSWORD := "secret" |}].
Proof. split_and!; vm_compute; reflexivity. Qed.

Lemma C5_pending_verify_keeps_scratch_file_witness :
  let scratch := verifyPath (cwd orphan_world) (backupId verify_options) in
  let res := restoreBackup ExecOk verify_options orphan_world in
  res = (NeverSettles, setFiles (<[scratch := []]> (files orphan_world)) orphan_world) ∧
  files (snd res) !! scratch = Some [] ∧
  execLog (snd res) = execLog orphan_world ∧
  table (snd res) = table orphan_world.
Proof.
  apply (C5_pending_verify_keeps_scratch_file (L:=sim_laws) ExecOk verify_options
           orphan_world orphan_row sample_artifact); try reflexivity.
  simpl. lia.
Defined.

Lemma C6_completed_record_path_has_no_file_witness :
  ∃ metadata row w',
    createManualBackup sample_inputs idle_world = (Fulfilled metadata, w') ∧
    findUnique (id metadata) (table w') = Some row ∧
    row_status row = completed ∧
    row_path row = encPath (cwd idle_world) (id metadata) ∧
    files w' !! row_path row = None ∧
    row_path row ≠ writtenPath (cwd idle_world) (id metadata) ∧
    is_Some (files w' !! writtenPath (cwd idle_world) (id metadata)).
Proof.
  apply (C6_completed_record_path_has_no_file sample_inputs idle_world
           "postgresql://pos:secret@db:5432/pos" sample_url sample_dump);
    reflexivity.
Defined.

Lemma C7_size_and_checksum_of_plain_dump_witness :
  persists_plain_dump (createManualBackup sample_inputs idle_world)
                      idle_world sample_inputs sample_dump ∧
  persists_plain_dump (createAutomaticBackup "bulk import" sample_inputs idle_world)
                      idle_world sample_inputs sample_dump ∧
  scheduled_persists_plain_dump (createScheduledBackup sample_inputs idle_world)
                                idle_world sample_inputs sample_dump.
Proof.
  apply (C7_size_and_checksum_of_plain_dump (L:=sim_laws) sample_inputs "bulk import"
           idle_world "postgresql://pos:secret@db:5432/pos" sample_url sample_dump);
    reflexivity.
Defined.

(** Counterexample to C7 as the specification words it: the completed record
    has size 5, the length of the plain dump, while the encrypted file is 32
    bytes long; and its checksum is the digest of the plain dump, not of the
    encrypted file. *)
Lemma C7_counterexample :
  fst (createManualBackup sample_inputs idle_world) = Fulfilled sample_completed ∧
  status sample_completed = completed ∧
  size sample_completed = 5 ∧
  files (snd (createManualBackup sample_inputs idle_world))
    !! "/app/backups/backup_2024-11-12T12-34-56-789Z_a1b2c3d4" = Some sample_artifact ∧
  Z.of_nat (length sample_artifact) = 32 ∧
  checksum sample_completed = sha256_hex sample_dump ∧
  checksum sample_completed ≠ sha256_hex sample_artifact.
Proof. split_and!; vm_compute; (reflexivity || discriminate). Qed.

Lemma C8_cleanup_deletes_nothing_witness :
  orphan_row ∈ table retention_world ∧ row_status orphan_row = completed ∧
  row_timestamp orphan_row < minusDays (1731414896789 + 1 + 30 * 86400000) 30 ∧
  cleanupOldBackups (1731414896789 + 1 + 30 * 86400000) retention_world
    = (Fulfilled tt, retention_world).
Proof.
  apply (C8_cleanup_deletes_nothing retention_world
           (1731414896789 + 1 + 30 * 86400000) 30 orphan_row []); reflexivity.
Defined.

Lemma C9_deleteBackup_orphans_row_witness :
  ∃ w',
    deleteBackup sample_id orphan_world
      = (Rejected (Error "Record to delete does not exist."), w') ∧
    findUnique sample_id (table w') = Some orphan_row ∧
    files w' = delete (row_path orphan_row) (files orphan_world) ∧
    files w' !! row_path orphan_row = None.
Proof.
  apply (C9_deleteBackup_orphans_row orphan_world sample_id orphan_row).
  - reflexivity.
  - intros r' Hr'. apply list_elem_of_singleton in Hr' as ->.
    intros H. vm_compute in H. discriminate H.
Defined.
End Evaluation.


(** ** Evaluation of the further properties *)

Section FurtherEvaluation.
#[local] Existing Instance Sim.platform.

Lemma orphan_keys_disjoint (r1 r2 : Row) :
  r1 ∈ [orphan_row] → r2 ∈ [orphan_row] → row_id r1 ≠ row_backupId r2.
Proof.
  intros H1 H2. apply list_elem_of_singleton in H1 as ->.
  apply list_elem_of_singleton in H2 as ->.
  intros H. vm_compute in H. discriminate H.
Qed.

Lemma script_verify_only_verifies_nothing_witness :
  "--verify-only" ∈ verify_argv ∧
  snd (runBackupRestore verify_argv None ExecOk orphan_world) = orphan_world ∧
  (fst (runBackupRestore verify_argv None ExecOk orphan_world) = ProcessExit 1 ∨
   fst (runBackupRestore verify_argv None ExecOk orphan_world) = NothingStarted).
Proof.
  assert ("--verify-only" ∈ verify_argv) as H by (unfold verify_argv; repeat constructor).
  split; [exact H|].
  exact (script_verify_only_verifies_nothing verify_argv None ExecOk orphan_world H).
Defined.

Lemma script_never_restores_under_database_keys_witness :
  snd (runBackupRestore restore_argv None ExecOk orphan_world) = orphan_world ∧
  fst (runBackupRestore restore_argv None ExecOk orphan_world) ≠ AppClosed ∧
  fst (runBackupRestore restore_argv None ExecOk orphan_world) ≠ RestorePending.
Proof.
  apply (script_never_restores_under_database_keys restore_argv None ExecOk orphan_world).
  apply orphan_keys_disjoint.
Defined.

(** The record is restorable and the run without a fourth word restores
    it; with [--drop-existing] in fourth position [restoreBackup] gets the
    flag as its target, fails on it with [Invalid URL], and the script
    exits with code 1 without a command. *)
Lemma script_fourth_argument_is_the_target_witness :
  fst (runBackupRestore keyed_argv None ExecOk keyed_restore_world) = AppClosed ∧
  drop_argv !! 3%nat = Some "--drop-existing" ∧
  fst (restoreBackup ExecOk
         {| backupId := sample_id; targetDatabase := Some "--drop-existing";
            dropExisting := Some true; verifyOnly := Some false |}
         keyed_restore_world) = Rejected (Error "Invalid URL") ∧
  fst (runBackupRestore drop_argv None ExecOk keyed_restore_world) = ProcessExit 1 ∧
  execLog (snd (runBackupRestore drop_argv None ExecOk keyed_restore_world))
    = execLog keyed_restore_world ∧
  fst (runBackupRestore drop_argv None ExecOk keyed_restore_world) ≠ AppClosed.
Proof.
  split; [vm_compute; reflexivity|].
  split; [reflexivity|].
  split; [vm_compute; reflexivity|].
  split; [vm_compute; reflexivity|].
  apply (script_fourth_argument_is_the_target drop_argv None ExecOk
           keyed_restore_world "--drop-existing"); [reflexivity| |reflexivity].
  intros H. discriminate H.
Defined.

Lemma decryptFile_never_settles_on_small_input_witness :
  let i := "/app/temp/empty.json" in
  let o := "/app/temp/empty_decrypted.json" in
  fst (decryptFile i o codec_world) = NeverSettles ∧
  files (snd (decryptFile i o codec_world)) = <[o := []]> (files codec_world) ∧
  outside o (snd (decryptFile i o codec_world)) = outside o codec_world.
Proof.
  apply (decryptFile_never_settles_on_small_input (L:=sim_laws) []
           "/app/temp/empty.json" "/app/temp/empty_decrypted.json" codec_world).
  - reflexivity.
  - simpl. lia.
Defined.

Lemma testBackup_never_settles_witness :
  let run :=
    testBackup (λ _, inl "Unexpected end of JSON input") "1731414896789"
               "2024-11-12T12:34:56.789Z" sample_iv keyless_world in
  fst run = NeverSettles ∧
  is_Some (files (snd run) !! ("test_" +:+ "1731414896789" +:+ "_encrypted")) ∧
  files (snd run) !! ("test_" +:+ "1731414896789" +:+ "_decrypted.json") = Some [].
Proof.
  apply (testBackup_never_settles (L:=sim_laws)
           (λ _, inl "Unexpected end of JSON input") "1731414896789"
           "2024-11-12T12:34:56.789Z" sample_iv keyless_world).
  - reflexivity.
  - simpl. lia.
Defined.

(** On the two-chunk artifact the decipher is fed the 32 bytes of the
    second chunk and accepts them: the call is fulfilled and the output
    holds the one block they decipher to. *)
Lemma decryptFile_deciphers_past_first_chunk_witness :
  let i := "/app/backups/backup_2024-11-12T12-34-56-789Z_a1b2c3d4.enc" in
  let o := "/app/temp/restore.sql" in
  let fed := aes_256_cbc_decrypt (encryptionKey restore_world) (take 16 large_artifact)
                                 (drop (Z.to_nat 65536) large_artifact) in
  let res := decryptFile i o restore_world in
  length (drop (Z.to_nat 65536) large_artifact) = 32%nat ∧
  fed = Deciphered (replicate 16 x41) ∧
  fst res = Fulfilled o ∧
  files (snd res) = <[o := replicate 16 x41]> (files restore_world).
Proof.
  intros i o fed res.
  assert (fed = Deciphered (replicate 16 x41)) as Hfed by reflexivity.
  split; [vm_compute; reflexivity|].
  split; [exact Hfed|].
  refine (proj1 (decryptFile_deciphers_past_first_chunk large_artifact i o
                   restore_world _ _) (replicate 16 x41) Hfed).
  - reflexivity.
  - apply Nat.leb_le. vm_compute. reflexivity.
Defined.

Lemma restoreBackup_refuses_unknown_and_unfinished_witness :
  restoreBackup ExecOk destructive_options idle_world =
    (Rejected
       match findUnique (backupId destructive_options) (table idle_world) with
       | None =>
           NotFoundException
             ("النسخة الاحتياطية غير موجودة: " +:+ backupId destructive_options)
       | Some _ =>
           BadRequestException
             ("النسخة الاحتياطية غير جاهزة للاستعادة: " +:+ backupId destructive_options)
       end,
     idle_world).
Proof.
  apply (restoreBackup_refuses_unknown_and_unfinished ExecOk destructive_options
           idle_world).
  intros H. discriminate H.
Defined.

Lemma verify_compares_digest_with_checksum_witness :
  restoreBackup ExecOk verify_options restore_world =
    (if decide (sha256_hex (replicate 16 x41) = row_checksum orphan_row)
     then Fulfilled tt
     else Rejected (Error "Checksum غير متطابق - الملف تالف"),
     setFiles (delete (verifyPath (cwd restore_world) (backupId verify_options))
                      (files restore_world)) restore_world).
Proof.
  apply (verify_compares_digest_with_checksum ExecOk verify_options restore_world
           orphan_row large_artifact (replicate 16 x41)); try reflexivity.
  apply Nat.leb_le. vm_compute. reflexivity.
Defined.

Lemma restore_runs_pg_restore_once_witness :
  let scratch := restorePath (cwd restore_world) (backupId destructive_options) in
  restoreBackup ExecOk destructive_options restore_world =
    (Fulfilled tt,
     logExec {| command := restoreCommand sample_url
                             (default false (dropExisting destructive_options)) scratch;
                PGPASSWORD := password sample_url |}
       (setFiles (delete scratch (files restore_world)) restore_world)).
Proof.
  apply (restore_runs_pg_restore_once ExecOk destructive_options restore_world
           orphan_row large_artifact (replicate 16 x41)
           "postgresql://pos:secret@db:5432/pos" sample_url); try reflexivity.
  apply Nat.leb_le. vm_compute. reflexivity.
Defined.

Lemma restore_leaves_no_decrypted_dump_witness :
  let scratch := restorePath (cwd restore_world) (backupId destructive_options) in
  let res := restoreBackup ExecOk destructive_options restore_world in
  env (snd res) = env restore_world ∧
  (∀ p, p ≠ scratch → files (snd res) !! p = files restore_world !! p) ∧
  (settled (fst res) →
     files (snd res) = files restore_world ∨
     files (snd res) = delete scratch (files restore_world)).
Proof.
  apply (restore_leaves_no_decrypted_dump ExecOk destructive_options restore_world).
  reflexivity.
Defined.

Lemma create_without_database_url_records_failure_witness :
  failed_run (createManualBackup sample_inputs keyless_world) keyless_world
             sample_inputs "DATABASE_URL غير محدد" ∧
  failed_run (createAutomaticBackup "bulk import" sample_inputs keyless_world)
             keyless_world sample_inputs "DATABASE_URL غير محدد" ∧
  execLog (snd (createManualBackup sample_inputs keyless_world))
    = execLog keyless_world ∧
  execLog (snd (createAutomaticBackup "bulk import" sample_inputs keyless_world))
    = execLog keyless_world.
Proof.
  apply (create_without_database_url_records_failure sample_inputs "bulk import"
           keyless_world).
  reflexivity.
Defined.

Lemma create_with_failing_pg_dump_records_failure_witness :
  let msg := "pg_dump: error: connection to server failed" in
  let call := {| command := dumpCommand sample_url
                              (sqlPath (cwd idle_world)
                                 (generateBackupId (i_isoNow failing_inputs)
                                                   (i_randomHex failing_inputs)));
                 PGPASSWORD := password sample_url |} in
  failed_run (createManualBackup failing_inputs idle_world) idle_world
             failing_inputs msg ∧
  failed_run (createAutomaticBackup "bulk import" failing_inputs idle_world)
             idle_world failing_inputs msg ∧
  execLog (snd (createManualBackup failing_inputs idle_world))
    = (execLog idle_world ++ [call])%list ∧
  execLog (snd (createAutomaticBackup "bulk import" failing_inputs idle_world))
    = (execLog idle_world ++ [call])%list.
Proof.
  apply (create_with_failing_pg_dump_records_failure failing_inputs "bulk import"
           idle_world "postgresql://pos:secret@db:5432/pos" sample_url
           "pg_dump: error: connection to server failed" (Some [x50]));
    reflexivity.
Defined.

Lemma created_backup_is_not_restorable_witness :
  let w' := snd (createManualBackup sample_inputs idle_world) in
  fst (restoreBackup ExecOk verify_options w')
    = Rejected (Error ("ENOENT: no such file or directory, open "
                       +:+ encPath (cwd idle_world) (backupId verify_options))) ∧
  execLog (snd (restoreBackup ExecOk verify_options w')) = execLog w'.
Proof.
  apply (created_backup_is_not_restorable sample_inputs idle_world
           "postgresql://pos:secret@db:5432/pos" sample_url sample_dump
           ExecOk verify_options); reflexivity.
Defined.

Lemma save_leaves_other_records_witness :
  let w' := snd (saveBackupMetadata 1731376800001 "cm3e0zz" running_backup orphan_world) in
  getBackupMetadata sample_id w' = (fst (getBackupMetadata sample_id orphan_world), w') ∧
  length (table w')
    = (length (table orphan_world)
       + match findUnique (id running_backup) (table orphan_world) with
         | Some _ => 0
         | None => 1
         end)%nat.
Proof.
  apply (save_leaves_other_records 1731376800001 "cm3e0zz" sample_id running_backup
           orphan_world).
  intros H. vm_compute in H. discriminate H.
Defined.

Lemma deleteBackup_removes_file_and_record_witness :
  let w' := snd (deleteBackup sample_id keyed_world) in
  fst (deleteBackup sample_id keyed_world) = Fulfilled tt ∧
  files w' = delete (row_path keyed_row) (files keyed_world) ∧
  (keyed_row ∉ table w') ∧
  (∀ r, r ∈ table keyed_world → row_id r ≠ sample_id → r ∈ table w') ∧
  (∀ r, r ∈ table w' → r ∈ table keyed_world).
Proof.
  apply (deleteBackup_removes_file_and_record sample_id keyed_world keyed_row);
    reflexivity.
Defined.

Lemma key_of_getBackup_is_unknown_elsewhere_witness :
  fst (BackupController.getBackup "cm3e1k7" orphan_world)
    = Fulfilled (Some (toResponse orphan_row)) ∧
  BackupController.restoreBackup ExecOk sample_dto orphan_world
    = (Rejected (NotFoundException ("النسخة الاحتياطية غير موجودة: " +:+ "cm3e1k7")),
       orphan_world) ∧
  BackupController.deleteBackup "cm3e1k7" orphan_world
    = (Rejected (NotFoundException ("النسخة الاحتياطية غير موجودة: " +:+ "cm3e1k7")),
       orphan_world).
Proof.
  assert (fst (BackupController.getBackup "cm3e1k7" orphan_world)
          = Fulfilled (Some (toResponse orphan_row))) as H by reflexivity.
  split; [exact H|].
  exact (key_of_getBackup_is_unknown_elsewhere "cm3e1k7" ExecOk sample_dto
           (toResponse orphan_row) orphan_world orphan_keys_disjoint H eq_refl).
Defined.

Lemma delete_is_always_rejected_under_database_keys_witness :
  (∃ e, fst (BackupController.deleteBackup sample_id orphan_world) = Rejected e) ∧
  table (snd (BackupController.deleteBackup sample_id orphan_world))
    = table orphan_world.
Proof.
  apply (delete_is_always_rejected_under_database_keys sample_id orphan_world).
  apply orphan_keys_disjoint.
Defined.

Lemma created_artifact_has_no_extension_witness :
  let backupId := generateBackupId (i_isoNow sample_inputs) (i_randomHex sample_inputs) in
  files (snd (createManualBackup sample_inputs idle_world))
    !! (cwd idle_world +:+ "/backups/" +:+ backupId)
    = Some (i_iv sample_inputs
            ++ aes_256_cbc_encrypt (encryptionKey idle_world) (i_iv sample_inputs)
                 sample_dump)%list ∧
  ∃ metadata,
    fst (getBackupMetadata backupId (snd (createManualBackup sample_inputs idle_world)))
      = Fulfilled (Some metadata) ∧
    path metadata = (cwd idle_world +:+ "/backups/" +:+ backupId) +:+ ".enc".
Proof.
  apply (created_artifact_has_no_extension sample_inputs idle_world
           "postgresql://pos:secret@db:5432/pos" sample_url sample_dump);
    reflexivity.
Defined.
End FurtherEvaluation.
